(** * ultralabel.llm.openai_ : the OpenAI adapter [OpenAILLM]

    A shallow embedding of [src/ultralabel/llm/openai_.py].  The adapter is
    effectful Python: it reads and writes the module global [openai.api_key],
    calls the provider ([openai.Model.list], [openai.ChatCompletion.create]),
    calls its collaborators (the task, the prompt, the custom formatter),
    emits warnings and log records, and raises.  We model it in a small
    state-and-exception monad whose state carries a chronological trace of
    every observable call, so that statements such as "before any network
    call" or "zero retries" are statements about that trace. *)

From Stdlib Require Import List String Ascii NArith Arith Bool Lia.
Import ListNotations.
Open Scope string_scope.
Open Scope list_scope.

Set Implicit Arguments.

(** ** Python strings and [str.strip] *)

(** A Python [str] that the code inspects is a sequence of Unicode code
    points. Fixed message texts are kept as Rocq strings. *)
Definition pystr := list N.

(** The code points for which [str.isspace] holds, which are the ones
    [str.strip()] removes when called without argument. *)
Definition py_isspace (c : N) : bool :=
  ((9 <=? c) && (c <=? 13) ||
   (28 <=? c) && (c <=? 32) ||
   (c =? 133) || (c =? 160) || (c =? 5760) ||
   (8192 <=? c) && (c <=? 8202) ||
   (c =? 8232) || (c =? 8233) || (c =? 8239) || (c =? 8287) ||
   (c =? 12288))%N.

Fixpoint lstrip (s : pystr) : pystr :=
  match s with
  | c :: s' => if py_isspace c then lstrip s' else s
  | [] => []
  end.

Definition rstrip (s : pystr) : pystr := rev (lstrip (rev s)).

(** [s.strip()] *)
Definition strip (s : pystr) : pystr := rstrip (lstrip s).

(** No whitespace at either end. *)
Definition no_surrounding_whitespace (s : pystr) : Prop :=
  (forall c, hd_error s = Some c -> py_isspace c = false) /\
  (forall c, hd_error (rev s) = Some c -> py_isspace c = false).

(** [sub in s] on message texts. *)
Fixpoint starts_with (sub s : string) : bool :=
  match sub, s with
  | EmptyString, _ => true
  | String a sub', String b s' => Ascii.eqb a b && starts_with sub' s'
  | String _ _, EmptyString => false
  end.

Fixpoint is_substring (sub s : string) : bool :=
  starts_with sub s ||
  match s with
  | String _ s' => is_substring sub s'
  | EmptyString => false
  end.

(** ** Exceptions *)

(** The exception classes the module names or can raise itself, and a
    catch-all for every other subclass of [Exception] a collaborator or the
    provider may raise (for instance [openai.error.InvalidRequestError]).
    The four classes of [openai.error] that the retry policy lists are
    siblings below [OpenAIError]; none is a subclass of another, so
    [isinstance] against them is a comparison of classes.  Everything here
    is an [Exception], which is what [except Exception] on line 121
    catches. *)
Inductive exc_class : Type :=
| APIError
| Timeout
| RateLimitError
| ServiceUnavailableError
| AssertionError
| ValueError
| AttributeError
| OtherError (name : string).

(** An exception instance: its class and its [str()], or tenacity's
    [RetryError], which wraps the exception of the last attempt. *)
Inductive exc : Type :=
| Exc (cls : exc_class) (msg : string)
| RetryError (last_attempt : exc).

Definition exc_class_eqb (a b : exc_class) : bool :=
  match a, b with
  | APIError, APIError => true
  | Timeout, Timeout => true
  | RateLimitError, RateLimitError => true
  | ServiceUnavailableError, ServiceUnavailableError => true
  | AssertionError, AssertionError => true
  | ValueError, ValueError => true
  | AttributeError, AttributeError => true
  | OtherError n, OtherError m => String.eqb n m
  | _, _ => false
  end.

(** [isinstance(e, types)] for a tuple of classes. *)
Definition isinstance (e : exc) (types : list exc_class) : bool :=
  match e with
  | Exc c _ => existsb (exc_class_eqb c) types
  | RetryError _ => false
  end.

(** [str(e)], as interpolated by [f"{e}"]. *)
Definition exc_str (e : exc) : string :=
  match e with
  | Exc _ msg => msg
  | RetryError _ => "RetryError"
  end.

(** What a call into a collaborator or the provider does: it returns or it
    raises. *)
Inductive outcome (A : Type) : Type :=
| Returns (a : A)
| Raises (e : exc).
Arguments Returns {A} a.
Arguments Raises {A} e.

(** ** Module constants (lines 25-33) *)

Definition _OPENAI_API_RETRY_ON_EXCEPTIONS : list exc_class :=
  [APIError; Timeout; RateLimitError; ServiceUnavailableError].
Definition _OPENAI_API_STOP_AFTER_ATTEMPT : nat := 6.
Definition _OPENAI_API_WAIT_RANDOM_EXPONENTIAL_MULTIPLIER : nat := 1.
Definition _OPENAI_API_WAIT_RANDOM_EXPONENTIAL_MAX : nat := 10.

(** ** tenacity's retry policy *)

(** The part of a [tenacity.Retrying] object that decides control flow.
    [wait], [before_sleep] and [after] only sleep and log. *)
Record Retrying : Type := {
  retry : exc -> bool;
  stop : nat -> bool;
  reraise : bool
}.

(** [retry_if_exception_type(types)]: retry when the attempt failed with an
    instance of one of [types]. *)
Definition retry_if_exception_type (types : list exc_class) (e : exc) : bool :=
  isinstance e types.

(** [stop_after_attempt(n)]: stop once [attempt_number >= n]. *)
Definition stop_after_attempt (n : nat) (attempt_number : nat) : bool :=
  (n <=? attempt_number)%nat.

(** The decorator of [_chat_completion_with_backoff] (lines 76-85).
    [reraise] is not passed, so it keeps tenacity's default [False]. *)
Definition backoff_policy : Retrying := {|
  retry := retry_if_exception_type _OPENAI_API_RETRY_ON_EXCEPTIONS;
  stop := stop_after_attempt _OPENAI_API_STOP_AFTER_ATTEMPT;
  reraise := false
|}.

Section Adapter.

(** Types owned by collaborators that are not part of this module: the
    task's input record and parsed output, the structured [Prompt] of
    [ultralabel.tasks.utils], the items of a message list, and floats
    (the temperature is only passed through). *)
Variables (Input Prompt Item Parsed Float : Type).

(** ** Values a prompt variable can hold *)

(** [Prompt] is a class of its own: an instance of it is not a [list]. *)
Inductive value : Type :=
| VPrompt (p : Prompt)
| VList (items : list Item)
| VStr (s : pystr)
| VNone
| VObject (type_name : string).

Definition isinstance_Prompt (v : value) : bool :=
  match v with VPrompt _ => true | _ => false end.

Definition isinstance_list (v : value) : bool :=
  match v with VList _ => true | _ => false end.

(** [f"{type(v)}"] *)
Definition type_repr (v : value) : string :=
  match v with
  | VPrompt _ => "<class 'ultralabel.tasks.utils.Prompt'>"
  | VList _ => "<class 'list'>"
  | VStr _ => "<class 'str'>"
  | VNone => "<class 'NoneType'>"
  | VObject n => "<class '" ++ n ++ "'>"
  end.

(** [f"{v}"], which is up to the value's class. *)
Variable format_value : value -> string.

(** ** Provider payloads *)

(** The keyword arguments of [openai.ChatCompletion.create]. *)
Record request : Type := {
  req_model : string;
  req_messages : list Item;
  req_n : nat;
  req_temperature : Float;
  req_max_tokens : nat
}.

(** One entry of [raw_response["choices"]]: [choice["message"]["content"]]
    is a string, or [None] (a function-call reply carries no content). *)
Record choice : Type := { content : option pystr }.

Record response : Type := { choices : list choice }.

(** [raw_response.to_dict_recursive()] turns the provider object into plain
    dicts and lists with the same entries. *)
Definition to_dict_recursive (r : response) : response := r.

(** ** Collaborators *)

(** The [Task] interface used by the adapter. *)
Record Task : Type := {
  generate_prompt : Input -> outcome value;
  parse_output : pystr -> outcome Parsed
}.

(** Everything outside the adapter that a run depends on.  The completion
    endpoint may answer differently each time it is called: its answer is a
    function of the number of calls made before. *)
Record World : Type := {
  environ_get : string -> option string;
  Model_list : option string -> outcome (option (list (option string)));
  ChatCompletion_create : nat -> request -> outcome response;
  format_as : Prompt -> string -> outcome value
}.

(** ** Observable events *)

Inductive event : Type :=
| EvModelList (api_key : option string)     (* openai.Model.list() *)
| EvChatCompletion (kwargs : request)       (* openai.ChatCompletion.create *)
| EvAfterLog (attempt_number : nat)         (* after_log *)
| EvBeforeSleepLog (attempt_number : nat)   (* before_sleep_log *)
| EvSleep (attempt_number : nat)            (* the randomized wait *)
| EvGeneratePrompt (input : Input)          (* task.generate_prompt *)
| EvFormattingFn (arg : value)              (* self.formatting_fn *)
| EvFormatAs (p : Prompt) (format : string) (* prompt.format_as *)
| EvParseOutput (text : pystr)              (* task.parse_output *)
| EvWarn (message : string).                (* warnings.warn(.., UserWarning) *)

Definition is_network_call (ev : event) : bool :=
  match ev with
  | EvModelList _ | EvChatCompletion _ => true
  | _ => false
  end.

Definition is_completion_call (ev : event) : bool :=
  match ev with EvChatCompletion _ => true | _ => false end.

(** The texts handed to [task.parse_output], in order. *)
Fixpoint parse_texts (tr : list event) : list pystr :=
  match tr with
  | EvParseOutput t :: tr' => t :: parse_texts tr'
  | _ :: tr' => parse_texts tr'
  | [] => []
  end.

(** ** The monad *)

(** Mutable state: the trace so far, the module global [openai.api_key],
    and how often the completion endpoint has been called. *)
Record state : Type := {
  trace : list event;
  api_key : option string;
  completions : nat
}.

Definition initial_state : state :=
  {| trace := []; api_key := None; completions := 0 |}.

Inductive res (A : Type) : Type :=
| Ok (a : A)
| Raise (e : exc)
| OutOfFuel.
Arguments Ok {A} a.
Arguments Raise {A} e.
Arguments OutOfFuel {A}.

Definition M (A : Type) : Type := state -> res A * state.

Definition ret {A} (a : A) : M A := fun s => (Ok a, s).

Definition bind {A B} (m : M A) (k : A -> M B) : M B :=
  fun s =>
    match m s with
    | (Ok a, s') => k a s'
    | (Raise e, s') => (Raise e, s')
    | (OutOfFuel, s') => (OutOfFuel, s')
    end.

Definition raise {A} (e : exc) : M A := fun s => (Raise e, s).

Definition out_of_fuel {A} : M A := fun s => (OutOfFuel, s).

Definition record_event (ev : event) (s : state) : state :=
  {| trace := trace s ++ [ev]; api_key := api_key s;
     completions := completions s |}.

Definition emit (ev : event) : M unit := fun s => (Ok tt, record_event ev s).

Definition lift {A} (o : outcome A) : M A :=
  match o with
  | Returns a => ret a
  | Raises e => raise e
  end.

(** [try: m  except Exception as e: handler e] *)
Definition try_except {A} (m : M A) (handler : exc -> M A) : M A :=
  fun s =>
    match m s with
    | (Raise e, s') => handler e s'
    | other => other
    end.

(** The outcome of one attempt, as tenacity stores it in the retry state. *)
Definition attempt {A} (m : M A) : M (outcome A) :=
  fun s =>
    match m s with
    | (Ok a, s') => (Ok (Returns a), s')
    | (Raise e, s') => (Ok (Raises e), s')
    | (OutOfFuel, s') => (OutOfFuel, s')
    end.

Notation "x <- m ;; k" := (bind m (fun x => k))
  (at level 61, m at next level, right associativity).
Notation "m ;;; k" := (bind m (fun _ => k))
  (at level 61, right associativity).

(** A list comprehension whose element expression has effects: elements are
    evaluated in order and the first exception ends the comprehension. *)
Fixpoint comprehension {A B} (f : A -> M B) (l : list A) : M (list B) :=
  match l with
  | [] => ret []
  | a :: l' =>
      b <- f a ;;
      bs <- comprehension f l' ;;
      ret (b :: bs)
  end.

Definition warn (message : string) : M unit := emit (EvWarn message).

Variable w : World.

(** ** [Retrying.__call__] *)

(** tenacity's loop ([Retrying.__call__] around [Retrying.iter]): run the
    function; if the policy does not ask for a retry, hand back the
    attempt's result (which re-raises its exception); otherwise call
    [after], and either give up - raising [RetryError] from the last
    exception, or that exception itself under [reraise] - or call
    [before_sleep], sleep and go round again with the next attempt number.
    No [before] hook is set by the decorator.  tenacity's own [TryAgain]
    signal, which forces a retry, is for the decorated body to raise; the
    body here only forwards to the endpoint, which knows nothing of
    tenacity, so that arm is left out.  Python's [while True] is bounded
    here by [fuel]. *)
Fixpoint retrying_call {A} (r : Retrying) (fn : M A)
    (fuel attempt_number : nat) : M A :=
  match fuel with
  | 0 => out_of_fuel
  | S fuel' =>
      fut <- attempt fn ;;
      match fut with
      | Returns a => ret a
      | Raises e =>
          if retry r e then
            emit (EvAfterLog attempt_number) ;;;
            if stop r attempt_number then
              if reraise r then raise e else raise (RetryError e)
            else
              emit (EvBeforeSleepLog attempt_number) ;;;
              emit (EvSleep attempt_number) ;;;
              retrying_call r fn fuel' (S attempt_number)
          else raise e
      end
  end.

(** [openai.ChatCompletion.create] on the keyword arguments *)
Definition create (kwargs : request) : M response :=
  fun s =>
    let s' := {| trace := trace s ++ [EvChatCompletion kwargs];
                 api_key := api_key s;
                 completions := S (completions s) |} in
    lift (ChatCompletion_create w (completions s) kwargs) s'.

(** ** [OpenAILLM] *)

Record OpenAILLM : Type := {
  task : Task;
  model : string;
  max_new_tokens : nat;
  temperature : Float;
  num_threads : option nat;
  formatting_fn : option (value -> outcome value);
  available_models_cache : option (list string)
}.

(** [_chat_completion_with_backoff] (lines 76-87): the endpoint call under
    the retry policy, starting at attempt number 1. *)
Definition _chat_completion_with_backoff (fuel : nat) (kwargs : request)
    : M response :=
  retrying_call backoff_policy (create kwargs) fuel 1.

(** ** [OpenAILLM.__init__] (lines 40-66) *)

(** Python's [a or b] on two optional strings: [a] when it is truthy
    (neither [None] nor empty), else [b]. *)
Definition py_or (a b : option string) : option string :=
  match a with
  | Some "" => b
  | Some k => Some k
  | None => b
  end.

Definition set_api_key (k : option string) : M unit :=
  fun s => (Ok tt, {| trace := trace s; api_key := k;
                      completions := completions s |}).

Definition get_api_key : M (option string) := fun s => (Ok (api_key s), s).

(** [[m["id"] for m in data if m.get("id") is not None]] *)
Fixpoint model_ids (data : list (option string)) : list string :=
  match data with
  | Some id :: data' => id :: model_ids data'
  | None :: data' => model_ids data'
  | [] => []
  end.

(** The [available_models] cached property (lines 68-74): the first access
    calls [openai.Model.list()] with the current [openai.api_key] and
    stores the ids on the instance; later accesses read the stored list. *)
Definition available_models (self : OpenAILLM) : M (list string * OpenAILLM) :=
  match available_models_cache self with
  | Some ids => ret (ids, self)
  | None =>
      key <- get_api_key ;;
      emit (EvModelList key) ;;;
      listing <- lift (Model_list w key) ;;
      let ids := model_ids (match listing with Some data => data | None => [] end) in
      ret (ids, {| task := task self; model := model self;
                   max_new_tokens := max_new_tokens self;
                   temperature := temperature self;
                   num_threads := num_threads self;
                   formatting_fn := formatting_fn self;
                   available_models_cache := Some ids |})
  end.

(** [repr] of a list of strings, as [f"{self.available_models}"] prints it
    (model ids contain no quote characters). *)
Definition repr_str_list (l : list string) : string :=
  ("[" ++ String.concat ", " (map (fun x => "'" ++ x ++ "'") l) ++ "]")%string.

Definition model_not_available_message (ids : list string) : string :=
  "Provided `model` is not available in your OpenAI account, available models are "
  ++ repr_str_list ids.

Definition missing_api_key_message : string :=
  "Either the `openai_api_key` arg or the `OPENAI_API_KEY` environment variable must be set to use the OpenAI API.".

Definition in_list (x : string) (l : list string) : bool :=
  existsb (String.eqb x) l.

(** The constructor.  The base class of [ultralabel.llm.base] is not among
    the sources at hand; its [__init__] is taken to store the task and the
    knobs on the instance.  [self.model] is stored once the first assertion
    has passed.  Both checks are [assert] statements (Python run without
    [-O]). *)
Definition __init__
    (task_ : Task) (model_ : string) (openai_api_key : option string)
    (max_new_tokens_ : nat) (temperature_ : Float)
    (num_threads_ : option nat)
    (formatting_fn_ : option (value -> outcome value)) : M OpenAILLM :=
  let self := {| task := task_; model := model_;
                 max_new_tokens := max_new_tokens_;
                 temperature := temperature_;
                 num_threads := num_threads_;
                 formatting_fn := formatting_fn_;
                 available_models_cache := None |} in
  set_api_key (py_or openai_api_key (environ_get w "OPENAI_API_KEY")) ;;;
  am <- available_models self ;;
  let '(ids, self) := am in
  if in_list model_ ids then
    key <- get_api_key ;;
    match key with
    | Some _ => ret self
    | None => raise (Exc AssertionError missing_api_key_message)
    end
  else
    am' <- available_models self ;;
    raise (Exc AssertionError (model_not_available_message (fst am'))).

(** ** Formatting a string under a format specification *)

(** Line 107 builds its message with an f-string whose last pair of braces
    is not doubled: [{'role': ..., 'content': ...}] is a replacement field
    with expression ['role'] and format specification
    [ ..., 'content': ...].  So the message goes through [format] on a
    string.  We follow the head of the specification the way CPython's
    parser reads it - fill and alignment, sign, [z], [#], zero padding,
    width, grouping, then the precision - far enough to see whether it is
    rejected for a dot that no digit follows. *)

Definition is_alignment_token (c : ascii) : bool :=
  existsb (Ascii.eqb c) ["<"; ">"; "="; "^"]%char.

Definition is_sign_element (c : ascii) : bool :=
  existsb (Ascii.eqb c) [" "; "+"; "-"]%char.

Definition is_digit (c : ascii) : bool :=
  ((48 <=? nat_of_ascii c) && (nat_of_ascii c <=? 57))%nat.

Definition skip_if (p : ascii -> bool) (l : list ascii) : list ascii :=
  match l with
  | c :: l' => if p c then l' else l
  | [] => []
  end.

Fixpoint skip_digits (l : list ascii) : list ascii :=
  match l with
  | c :: l' => if is_digit c then skip_digits l' else l
  | [] => []
  end.

(** Returns what follows the fill and alignment, and whether a fill
    character was given. *)
Definition skip_fill_align (l : list ascii) : list ascii * bool :=
  match l with
  | _ :: a :: l' =>
      if is_alignment_token a then (l', true)
      else (skip_if is_alignment_token l, false)
  | _ => (skip_if is_alignment_token l, false)
  end.

Definition format_spec_missing_precision (spec : string) : bool :=
  let '(l, fill_given) := skip_fill_align (list_ascii_of_string spec) in
  let l := skip_if is_sign_element l in
  let l := skip_if (Ascii.eqb "z") l in
  let l := skip_if (Ascii.eqb "#") l in
  let l := if fill_given then l else skip_if (Ascii.eqb "0") l in
  let l := skip_digits l in
  match l with
  | ("," :: "_" :: _)%char => false
  | ("_" :: "," :: _)%char => false
  | _ =>
      let l := skip_if (Ascii.eqb ",") l in
      let l := skip_if (Ascii.eqb "_") l in
      match l with
      | "."%char :: l' =>
          match l' with
          | c :: _ => negb (is_digit c)
          | [] => true
          end
      | _ => false
      end
  end.

(** The rest of the format mini-language is not needed here. *)
Variable str_format_rest : string -> string -> outcome string.

(** [format(s, spec)] for a string [s]. *)
Definition str_format (s spec : string) : outcome string :=
  match spec with
  | "" => Returns s
  | _ =>
      if format_spec_missing_precision spec
      then Raises (Exc ValueError "Format specifier missing precision")
      else str_format_rest s spec
  end.

(** ** [OpenAILLM._generate] (lines 89-126) *)

(** The warning text of lines 97-101. *)
Definition preformatted_warning (prompt : value) : string :=
  "The method `generate_prompt` is not returning a `Prompt` class but a prompt of `type="
  ++ type_repr prompt
  ++ "`, meaning that a pre-formatting has already been applied in the `task.generate_prompt` method, so the usage of a `formatting_fn` is discouraged.".

(** The f-string of line 107, fields evaluated left to right. *)
Definition not_a_list_message (prompt : value) : outcome string :=
  let shown := format_value prompt in
  let shown_type := type_repr prompt in
  match str_format "role" " ..., 'content': ..." with
  | Returns field =>
      Returns ("The provided `prompt=" ++ shown ++ "` is of `type=" ++ shown_type
               ++ "`, but it must be a `list`, make sure that `task.generate_prompt` returns a `list` or that the `formatting_fn` formats the prompt as a `list`, where each item follows OpenAI's format of `"
               ++ field ++ "`.")%string
  | Raises e => Raises e
  end.

(** Lines 96-104: which formatting, if any, is applied to the prompt. *)
Definition resolve_prompt (self : OpenAILLM) (prompt : value) : M value :=
  match prompt, formatting_fn self with
  | VPrompt p, None =>
      (* elif isinstance(prompt, Prompt) and self.formatting_fn is None *)
      emit (EvFormatAs p "openai") ;;;
      lift (format_as w p "openai")
  | VPrompt _, Some _ =>
      (* neither condition holds *)
      ret prompt
  | _, Some fn =>
      (* if not isinstance(prompt, Prompt) and self.formatting_fn is not None *)
      warn (preformatted_warning prompt) ;;;
      emit (EvFormattingFn prompt) ;;;
      lift (fn prompt)
  | _, None =>
      (* neither condition holds *)
      ret prompt
  end.

(** Lines 105-108. *)
Definition require_list (prompt : value) : M (list Item) :=
  match prompt with
  | VList messages => ret messages
  | _ =>
      message <- lift (not_a_list_message prompt) ;;
      raise (Exc ValueError message)
  end.

(** Lines 95-104: the task's prompt, formatted. *)
Definition prepare_prompt (self : OpenAILLM) (input : Input) : M value :=
  emit (EvGeneratePrompt input) ;;;
  prompt <- lift (generate_prompt (task self) input) ;;
  resolve_prompt self prompt.

(** The keyword arguments of lines 110-114. *)
Definition completion_kwargs (self : OpenAILLM) (messages : list Item)
    (num_generations : nat) : request :=
  {| req_model := model self;
     req_messages := messages;
     req_n := num_generations;
     req_temperature := temperature self;
     req_max_tokens := max_new_tokens self |}.

(** Lines 95-115: from the input record to the raw response. *)
Definition request_completion (fuel : nat) (self : OpenAILLM)
    (input : Input) (num_generations : nat) : M response :=
  prompt <- prepare_prompt self input ;;
  messages <- require_list prompt ;;
  _chat_completion_with_backoff fuel
    (completion_kwargs self messages num_generations).

(** The element expression of the comprehension of lines 117-120. *)
Definition parse_choice (self : OpenAILLM) (c : choice) : M Parsed :=
  match content c with
  | Some text =>
      let text := strip text in
      emit (EvParseOutput text) ;;;
      lift (parse_output (task self) text)
  | None =>
      raise (Exc AttributeError "'NoneType' object has no attribute 'strip'")
  end.

Definition parse_error_warning (e : exc) : string :=
  "Error parsing OpenAI response: " ++ exc_str e.

(** Lines 116-125. *)
Definition parse_choices (self : OpenAILLM) (raw_response : response)
    : M (list Parsed) :=
  try_except
    (comprehension (parse_choice self) (choices raw_response))
    (fun e => warn (parse_error_warning e) ;;; ret []).

Definition _generate (fuel : nat) (self : OpenAILLM)
    (input : Input) (num_generations : nat)
    : M (response * list Parsed) :=
  raw_response <- request_completion fuel self input num_generations ;;
  parsed_response <- parse_choices self raw_response ;;
  ret (to_dict_recursive raw_response, parsed_response).

(** ** The vocabulary of the statements *)

(** The state after some more events and completion calls. *)
Definition advance (s : state) (evs : list event) (n : nat) : state :=
  {| trace := trace s ++ evs; api_key := api_key s;
     completions := completions s + n |}.

(** What one failed and retried attempt leaves in the trace. *)
Definition failed_attempt_events (kwargs : request) (attempt_number : nat)
    : list event :=
  [EvChatCompletion kwargs; EvAfterLog attempt_number;
   EvBeforeSleepLog attempt_number; EvSleep attempt_number].

(** The [i]-th call of the endpoint raises an error of the retry set. *)
Definition transient_at (kwargs : request) (i : nat) : Prop :=
  exists e, ChatCompletion_create w i kwargs = Raises e /\
            isinstance e _OPENAI_API_RETRY_ON_EXCEPTIONS = true.

(** The state after some more events that are not calls of the completion
    endpoint. *)
Definition extend (s : state) (evs : list event) : state :=
  {| trace := trace s ++ evs; api_key := api_key s;
     completions := completions s |}.

(** [m] does not run out of fuel. *)
Definition terminates {A} (m : M A) : Prop :=
  forall s, fst (m s) <> OutOfFuel.

(** [m] only appends to the trace, and only events satisfying [P]. *)
Definition emits {A} (P : event -> Prop) (m : M A) : Prop :=
  forall s, exists evs, trace (snd (m s)) = trace s ++ evs /\ Forall P evs.

Definition is_backoff_event (ev : event) : bool :=
  match ev with
  | EvChatCompletion _ | EvAfterLog _ | EvBeforeSleepLog _ | EvSleep _ => true
  | _ => false
  end.

(** The choice [c] makes the element expression raise [e]: its content is
    [None], or the task's parser raises on the stripped content. *)
Definition choice_raises (self : OpenAILLM) (c : choice) (e : exc) : Prop :=
  match content c with
  | Some text => parse_output (task self) (strip text) = Raises e
  | None => e = Exc AttributeError "'NoneType' object has no attribute 'strip'"
  end.

(** [t] is the stripped content of the choice [c]. *)
Definition stripped_content_of (t : pystr) (c : choice) : Prop :=
  exists text, content c = Some text /\ t = strip text.

(** The comprehension, told as a plain function: the texts it hands to the
    parser, and the first exception or else all parsed outputs. *)
Fixpoint parse_run (self : OpenAILLM) (cs : list choice)
    : list pystr * (exc + list Parsed) :=
  match cs with
  | [] => ([], inr [])
  | c :: cs' =>
      match content c with
      | None =>
          ([], inl (Exc AttributeError "'NoneType' object has no attribute 'strip'"))
      | Some text =>
          match parse_output (task self) (strip text) with
          | Raises e => ([strip text], inl e)
          | Returns p =>
              let '(texts, r) := parse_run self cs' in
              (strip text :: texts,
               match r with inl e => inl e | inr ps => inr (p :: ps) end)
          end
      end
  end.

Definition is_prompt_event (ev : event) : bool :=
  match ev with
  | EvGeneratePrompt _ | EvWarn _ | EvFormattingFn _ | EvFormatAs _ _ => true
  | _ => false
  end.

(** Lines 105-126, for a prompt already resolved. *)
Definition after_prompt (fuel : nat) (self : OpenAILLM) (n : nat)
    (prompt : value) : M (response * list Parsed) :=
  messages <- require_list prompt ;;
  raw_response <- _chat_completion_with_backoff fuel
                    (completion_kwargs self messages n) ;;
  parsed_response <- parse_choices self raw_response ;;
  ret (to_dict_recursive raw_response, parsed_response).

Definition missing_precision : exc :=
  Exc ValueError "Format specifier missing precision".

(** * Properties *)

(** ** The retry loop *)

Lemma advance_advance s evs n evs' n' :
  advance (advance s evs n) evs' n' = advance s (evs ++ evs') (n + n').
Proof.
  unfold advance; simpl. now rewrite <- app_assoc, Nat.add_assoc.
Qed.

Lemma create_returns kwargs s r :
  ChatCompletion_create w (completions s) kwargs = Returns r ->
  create kwargs s = (Ok r, advance s [EvChatCompletion kwargs] 1).
Proof.
  intros H. unfold create, advance. rewrite H. simpl.
  now rewrite Nat.add_1_r.
Qed.

Lemma create_raises kwargs s e :
  ChatCompletion_create w (completions s) kwargs = Raises e ->
  create kwargs s = (Raise e, advance s [EvChatCompletion kwargs] 1).
Proof.
  intros H. unfold create, advance. rewrite H. simpl.
  now rewrite Nat.add_1_r.
Qed.

(** One round of the loop under the policy of the decorator. *)
Lemma backoff_round kwargs fuel a s :
  retrying_call backoff_policy (create kwargs) (S fuel) a s =
  match ChatCompletion_create w (completions s) kwargs with
  | Returns r => (Ok r, advance s [EvChatCompletion kwargs] 1)
  | Raises e =>
      if isinstance e _OPENAI_API_RETRY_ON_EXCEPTIONS then
        if (_OPENAI_API_STOP_AFTER_ATTEMPT <=? a)%nat then
          (Raise (RetryError e),
           advance s [EvChatCompletion kwargs; EvAfterLog a] 1)
        else
          retrying_call backoff_policy (create kwargs) fuel (S a)
            (advance s (failed_attempt_events kwargs a) 1)
      else (Raise e, advance s [EvChatCompletion kwargs] 1)
  end.
Proof.
  cbn [retrying_call]. unfold bind at 1, attempt.
  destruct (ChatCompletion_create w (completions s) kwargs) as [r|e] eqn:E.
  - rewrite (create_returns _ _ E). reflexivity.
  - rewrite (create_raises _ _ E).
    cbn [backoff_policy retry stop reraise].
    unfold retry_if_exception_type, stop_after_attempt.
    destruct (isinstance e _OPENAI_API_RETRY_ON_EXCEPTIONS); [|reflexivity].
    unfold bind, emit, raise, record_event, advance, failed_attempt_events.
    destruct (_OPENAI_API_STOP_AFTER_ATTEMPT <=? a)%nat;
      cbn [trace api_key completions]; now rewrite <- !app_assoc.
Qed.

(** [k] transient failures, then a success: the loop returns the success
    provided the attempts stay below the ceiling. *)
Lemma retry_absorbs kwargs r :
  forall k fuel a s,
    a + k <= _OPENAI_API_STOP_AFTER_ATTEMPT ->
    k < fuel ->
    (forall i, i < k -> transient_at kwargs (completions s + i)) ->
    ChatCompletion_create w (completions s + k) kwargs = Returns r ->
    retrying_call backoff_policy (create kwargs) fuel a s =
      (Ok r,
       advance s
         (flat_map (failed_attempt_events kwargs) (seq a k)
          ++ [EvChatCompletion kwargs]) (S k)).
Proof.
  induction k as [|k IH]; intros fuel a s Ha Hf Htr Hok.
  - destruct fuel as [|fuel]; [lia|].
    rewrite backoff_round. rewrite Nat.add_0_r in Hok. now rewrite Hok.
  - destruct fuel as [|fuel]; [lia|].
    rewrite backoff_round.
    destruct (Htr 0) as (e & He & Hi); [lia|].
    rewrite Nat.add_0_r in He. rewrite He, Hi.
    destruct (Nat.leb_spec _OPENAI_API_STOP_AFTER_ATTEMPT a) as [Hle|Hlt]; [lia|].
    rewrite (IH fuel (S a)); cbn [advance completions].
    + rewrite advance_advance. cbn [seq flat_map].
      now rewrite <- app_assoc.
    + lia.
    + lia.
    + intros i Hi'. replace (completions s + 1 + i) with (completions s + S i) by lia.
      apply Htr. lia.
    + now replace (completions s + 1 + k) with (completions s + S k) by lia.
Qed.

(** Transient failures on every attempt up to the ceiling: the loop gives
    up after the attempt numbered [_OPENAI_API_STOP_AFTER_ATTEMPT] and
    raises [RetryError] around that attempt's exception. *)
Lemma retry_exhausts kwargs e :
  forall k fuel a s,
    a + k = _OPENAI_API_STOP_AFTER_ATTEMPT ->
    k < fuel ->
    (forall i, i < k -> transient_at kwargs (completions s + i)) ->
    ChatCompletion_create w (completions s + k) kwargs = Raises e ->
    isinstance e _OPENAI_API_RETRY_ON_EXCEPTIONS = true ->
    retrying_call backoff_policy (create kwargs) fuel a s =
      (Raise (RetryError e),
       advance s
         (flat_map (failed_attempt_events kwargs) (seq a k)
          ++ [EvChatCompletion kwargs;
              EvAfterLog _OPENAI_API_STOP_AFTER_ATTEMPT]) (S k)).
Proof.
  induction k as [|k IH]; intros fuel a s Ha Hf Htr Hlast Hin.
  - destruct fuel as [|fuel]; [lia|].
    rewrite backoff_round. rewrite Nat.add_0_r in Hlast, Ha.
    rewrite Hlast, Hin. subst a. now rewrite Nat.leb_refl.
  - destruct fuel as [|fuel]; [lia|].
    rewrite backoff_round.
    destruct (Htr 0) as (e0 & He & Hi); [lia|].
    rewrite Nat.add_0_r in He. rewrite He, Hi.
    destruct (Nat.leb_spec _OPENAI_API_STOP_AFTER_ATTEMPT a) as [Hle|Hlt]; [lia|].
    rewrite (IH fuel (S a)); cbn [advance completions]; try lia.
    + rewrite advance_advance. cbn [seq flat_map].
      now rewrite <- app_assoc.
    + intros i Hi'. replace (completions s + 1 + i) with (completions s + S i) by lia.
      apply Htr. lia.
    + now replace (completions s + 1 + k) with (completions s + S k) by lia.
    + assumption.
Qed.

(** [k] transient failures, then an error outside the retry set: the loop
    raises that error right after the attempt that met it. *)
Lemma retry_stops_at_other_error kwargs e :
  forall k fuel a s,
    a + k <= _OPENAI_API_STOP_AFTER_ATTEMPT ->
    k < fuel ->
    (forall i, i < k -> transient_at kwargs (completions s + i)) ->
    ChatCompletion_create w (completions s + k) kwargs = Raises e ->
    isinstance e _OPENAI_API_RETRY_ON_EXCEPTIONS = false ->
    retrying_call backoff_policy (create kwargs) fuel a s =
      (Raise e,
       advance s
         (flat_map (failed_attempt_events kwargs) (seq a k)
          ++ [EvChatCompletion kwargs]) (S k)).
Proof.
  induction k as [|k IH]; intros fuel a s Ha Hf Htr Hlast Hin.
  - destruct fuel as [|fuel]; [lia|].
    rewrite backoff_round. rewrite Nat.add_0_r in Hlast.
    now rewrite Hlast, Hin.
  - destruct fuel as [|fuel]; [lia|].
    rewrite backoff_round.
    destruct (Htr 0) as (e0 & He & Hi); [lia|].
    rewrite Nat.add_0_r in He. rewrite He, Hi.
    destruct (Nat.leb_spec _OPENAI_API_STOP_AFTER_ATTEMPT a) as [Hle|Hlt]; [lia|].
    rewrite (IH fuel (S a)); cbn [advance completions]; try lia.
    + rewrite advance_advance. cbn [seq flat_map].
      now rewrite <- app_assoc.
    + intros i Hi'. replace (completions s + 1 + i) with (completions s + S i) by lia.
      apply Htr. lia.
    + now replace (completions s + 1 + k) with (completions s + S k) by lia.
    + assumption.
Qed.

(** With fuel for six rounds the loop always ends by itself. *)
Lemma retry_never_out_of_fuel kwargs :
  forall fuel a s,
    0 < fuel ->
    _OPENAI_API_STOP_AFTER_ATTEMPT < fuel + a ->
    fst (retrying_call backoff_policy (create kwargs) fuel a s) <> OutOfFuel.
Proof.
  induction fuel as [|fuel IH]; intros a s Hpos H; [lia|].
  rewrite backoff_round.
  destruct (ChatCompletion_create w (completions s) kwargs) as [r|e];
    [cbn; discriminate|].
  destruct (isinstance e _OPENAI_API_RETRY_ON_EXCEPTIONS); [|cbn; discriminate].
  destruct (Nat.leb_spec _OPENAI_API_STOP_AFTER_ATTEMPT a); [cbn; discriminate|].
  apply IH; lia.
Qed.

(** C2 (as amended): the retried completion call absorbs fewer than six
    transient failures and returns the first successful response; after
    transient failures on six consecutive attempts it makes no seventh
    call and raises tenacity's [RetryError] wrapping the sixth error. *)
Theorem backoff_absorbs_then_gives_up kwargs s fuel :
  _OPENAI_API_STOP_AFTER_ATTEMPT <= fuel ->
  (forall k r,
      k < 6 ->
      (forall i, i < k -> transient_at kwargs (completions s + i)) ->
      ChatCompletion_create w (completions s + k) kwargs = Returns r ->
      _chat_completion_with_backoff fuel kwargs s =
        (Ok r,
         advance s
           (flat_map (failed_attempt_events kwargs) (seq 1 k)
            ++ [EvChatCompletion kwargs]) (S k)))
  /\
  (forall e,
      (forall i, i < 5 -> transient_at kwargs (completions s + i)) ->
      ChatCompletion_create w (completions s + 5) kwargs = Raises e ->
      isinstance e _OPENAI_API_RETRY_ON_EXCEPTIONS = true ->
      _chat_completion_with_backoff fuel kwargs s =
        (Raise (RetryError e),
         advance s
           (flat_map (failed_attempt_events kwargs) (seq 1 5)
            ++ [EvChatCompletion kwargs; EvAfterLog 6]) 6)).
Proof.
  unfold _OPENAI_API_STOP_AFTER_ATTEMPT. intros Hfuel. split.
  - intros k r Hk Htr Hok. unfold _chat_completion_with_backoff.
    apply retry_absorbs; trivial; unfold _OPENAI_API_STOP_AFTER_ATTEMPT; lia.
  - intros e Htr He Hin. unfold _chat_completion_with_backoff.
    apply (@retry_exhausts kwargs e 5); trivial; lia.
Qed.

(** C3: an error outside the retry set met on the first attempt is raised
    as it is, after that one call of the endpoint: no log record, no
    sleep, no second call. *)
Theorem backoff_other_error_immediate kwargs s fuel e :
  1 <= fuel ->
  ChatCompletion_create w (completions s) kwargs = Raises e ->
  isinstance e _OPENAI_API_RETRY_ON_EXCEPTIONS = false ->
  _chat_completion_with_backoff fuel kwargs s =
    (Raise e, advance s [EvChatCompletion kwargs] 1).
Proof.
  intros Hfuel He Hin. unfold _chat_completion_with_backoff.
  apply (@retry_stops_at_other_error kwargs e 0); trivial.
  - unfold _OPENAI_API_STOP_AFTER_ATTEMPT; lia.
  - intros i Hi; lia.
  - now rewrite Nat.add_0_r.
Qed.

(** ** [str.strip] *)

Lemma lstrip_head s c :
  hd_error (lstrip s) = Some c -> py_isspace c = false.
Proof.
  induction s as [|d s IH]; cbn; [discriminate|].
  destruct (py_isspace d) eqn:E; [exact IH|].
  cbn. intros [= <-]. exact E.
Qed.

(** [lstrip] removes a run of whitespace from the front and nothing else. *)
Lemma lstrip_split s :
  exists ws, s = ws ++ lstrip s /\ forallb py_isspace ws = true.
Proof.
  induction s as [|d s (ws & Hs & Hws)]; cbn.
  - now exists [].
  - destruct (py_isspace d) eqn:E.
    + exists (d :: ws). cbn. rewrite E, Hws. split; [now f_equal|reflexivity].
    + now exists [].
Qed.

Lemma forallb_rev {A} (p : A -> bool) l :
  forallb p (rev l) = forallb p l.
Proof.
  induction l as [|a l IH]; [reflexivity|].
  cbn. rewrite forallb_app, IH. cbn. now rewrite andb_true_r, andb_comm.
Qed.

(** [strip] cuts a run of whitespace off each end of the string, and what
    is left neither starts nor ends with whitespace. *)
Lemma strip_spec s :
  (exists l r, s = l ++ strip s ++ r /\
               forallb py_isspace l = true /\ forallb py_isspace r = true) /\
  no_surrounding_whitespace (strip s).
Proof.
  unfold strip, rstrip.
  destruct (lstrip_split s) as (l & Hl & Hlw).
  destruct (lstrip_split (rev (lstrip s))) as (r & Hr & Hrw).
  assert (Hmid : lstrip s = rev (lstrip (rev (lstrip s))) ++ rev r).
  { rewrite <- rev_app_distr, <- Hr. now rewrite rev_involutive. }
  split.
  - exists l, (rev r). rewrite <- Hmid. repeat split; trivial.
    now rewrite forallb_rev.
  - split.
    + intros c Hc. apply (@lstrip_head s c). rewrite Hmid.
      destruct (rev (lstrip (rev (lstrip s)))); [discriminate|exact Hc].
    + intros c. rewrite rev_involutive. apply lstrip_head.
Qed.

(** ** What a computation adds to the trace *)

Lemma extend_extend s evs evs' :
  extend (extend s evs) evs' = extend s (evs ++ evs').
Proof. unfold extend; cbn. now rewrite <- app_assoc. Qed.

Lemma extend_nil s : extend s [] = s.
Proof. destruct s. unfold extend; cbn. now rewrite app_nil_r. Qed.

Lemma emits_weaken {A} (P Q : event -> Prop) (m : M A) :
  (forall ev, P ev -> Q ev) -> emits P m -> emits Q m.
Proof.
  intros HPQ Hm s. destruct (Hm s) as (evs & Ht & HP).
  exists evs. split; [exact Ht|]. eapply Forall_impl; eauto.
Qed.

Lemma emits_ret {A} P (a : A) : emits P (ret a).
Proof. intros s. exists []. cbn. now rewrite app_nil_r. Qed.

Lemma emits_raise {A} P e : emits P (@raise A e).
Proof. intros s. exists []. cbn. now rewrite app_nil_r. Qed.

Lemma emits_out_of_fuel {A} P : emits P (@out_of_fuel A).
Proof. intros s. exists []. cbn. now rewrite app_nil_r. Qed.

Lemma emits_lift {A} P (o : outcome A) : emits P (lift o).
Proof. destruct o; [apply emits_ret|apply emits_raise]. Qed.

Lemma emits_emit (P : event -> Prop) ev : P ev -> emits P (emit ev).
Proof. intros H s. exists [ev]. cbn. auto. Qed.

Lemma emits_bind {A B} P (m : M A) (k : A -> M B) :
  emits P m -> (forall a, emits P (k a)) -> emits P (bind m k).
Proof.
  intros Hm Hk s. unfold bind.
  destruct (Hm s) as (evs & Ht & HP).
  destruct (m s) as [[a|e|] s1]; cbn in Ht.
  - destruct (Hk a s1) as (evs' & Ht' & HP').
    exists (evs ++ evs'). rewrite Ht', Ht, app_assoc. split; [reflexivity|].
    apply Forall_app; auto.
  - now exists evs.
  - now exists evs.
Qed.

Lemma emits_try_except {A} P (m : M A) handler :
  emits P m -> (forall e, emits P (handler e)) -> emits P (try_except m handler).
Proof.
  intros Hm Hh s. unfold try_except.
  destruct (Hm s) as (evs & Ht & HP).
  destruct (m s) as [[a|e|] s1]; cbn in Ht.
  - now exists evs.
  - destruct (Hh e s1) as (evs' & Ht' & HP').
    exists (evs ++ evs'). rewrite Ht', Ht, app_assoc. split; [reflexivity|].
    apply Forall_app; auto.
  - now exists evs.
Qed.

Lemma emits_attempt {A} P (m : M A) : emits P m -> emits P (attempt m).
Proof.
  intros Hm s. unfold attempt.
  destruct (Hm s) as (evs & Ht & HP).
  destruct (m s) as [[a|e|] s1]; cbn in Ht; now exists evs.
Qed.

Lemma emits_comprehension {A B} P (f : A -> M B) l :
  (forall a, emits P (f a)) -> emits P (comprehension f l).
Proof.
  intros Hf. induction l as [|a l IH]; cbn [comprehension].
  - apply emits_ret.
  - apply emits_bind; [apply Hf|]. intros b.
    apply emits_bind; [apply IH|]. intros bs. apply emits_ret.
Qed.

Lemma emits_create (P : event -> Prop) kwargs :
  P (EvChatCompletion kwargs) -> emits P (create kwargs).
Proof.
  intros H s. exists [EvChatCompletion kwargs]. unfold create.
  destruct (ChatCompletion_create w (completions s) kwargs); cbn; auto.
Qed.

(** Straight-line code is handled by running through its binds. *)
Ltac emits_steps :=
  repeat first
    [ apply emits_ret
    | apply emits_raise
    | apply emits_lift
    | apply emits_bind; [|intro]
    | apply emits_emit; solve [reflexivity | discriminate] ].

(** The loop adds what the function adds, plus log records and sleeps. *)
Lemma emits_retrying_call {A} (P : event -> Prop) r (fn : M A) :
  emits P fn ->
  (forall a, P (EvAfterLog a) /\ P (EvBeforeSleepLog a) /\ P (EvSleep a)) ->
  forall fuel a, emits P (retrying_call r fn fuel a).
Proof.
  intros Hfn Hlog. induction fuel as [|fuel IH]; intros a; cbn [retrying_call].
  - apply emits_out_of_fuel.
  - apply emits_bind; [now apply emits_attempt|]. intros [x|e].
    + apply emits_ret.
    + destruct (retry r e); [|apply emits_raise].
      destruct (Hlog a) as (Ha & Hb & Hc).
      apply emits_bind; [now apply emits_emit|]. intros _.
      destruct (stop r a).
      * destruct (reraise r); apply emits_raise.
      * apply emits_bind; [now apply emits_emit|]. intros _.
        apply emits_bind; [now apply emits_emit|]. intros _.
        apply IH.
Qed.

(** The retried call adds completion requests, log records and sleeps, and
    every completion request it issues carries the keyword arguments it
    was called with. *)
Lemma emits_backoff fuel kwargs :
  emits (fun ev => is_backoff_event ev = true /\
                   forall kw, ev = EvChatCompletion kw -> kw = kwargs)
        (_chat_completion_with_backoff fuel kwargs).
Proof.
  apply emits_retrying_call.
  - apply emits_create. split; [reflexivity|]. now intros kw [= ->].
  - intros a. repeat split; intros kw; discriminate.
Qed.

(** ** Parsing the choices *)

Lemma comprehension_parse_run self cs s :
  comprehension (parse_choice self) cs s =
  (match snd (parse_run self cs) with
   | inl e => Raise e
   | inr ps => Ok ps
   end,
   extend s (map EvParseOutput (fst (parse_run self cs)))).
Proof.
  revert s. induction cs as [|c cs IH]; intros s; cbn [comprehension parse_run].
  - cbn. now rewrite extend_nil.
  - unfold bind at 1. unfold parse_choice at 1.
    destruct (content c) as [text|]; [|cbn; now rewrite extend_nil].
    unfold bind at 1, emit.
    destruct (parse_output (task self) (strip text)) as [p|e]; cbn [lift ret raise].
    + unfold bind at 1. rewrite IH.
      destruct (parse_run self cs) as [texts [e|ps]]; cbn [fst snd map];
        unfold ret, extend, record_event; cbn [trace api_key completions];
        now rewrite <- app_assoc.
    + reflexivity.
Qed.

(** Lines 116-125 as a whole. *)
Lemma parse_choices_run self raw s :
  parse_choices self raw s =
  match snd (parse_run self (choices raw)) with
  | inl e =>
      (Ok [],
       extend s (map EvParseOutput (fst (parse_run self (choices raw)))
                 ++ [EvWarn (parse_error_warning e)]))
  | inr ps =>
      (Ok ps, extend s (map EvParseOutput (fst (parse_run self (choices raw)))))
  end.
Proof.
  unfold parse_choices, try_except. rewrite comprehension_parse_run.
  destruct (snd (parse_run self (choices raw))) as [e|ps]; [|reflexivity].
  unfold bind, warn, emit, ret.
  change (record_event ?ev ?st) with (extend st [ev]).
  now rewrite extend_extend.
Qed.

Lemma parse_run_all self cs ps :
  snd (parse_run self cs) = inr ps ->
  List.length ps = List.length cs /\
  Forall2 stripped_content_of (fst (parse_run self cs)) cs.
Proof.
  revert ps. induction cs as [|c cs IH]; intros ps; cbn [parse_run].
  - intros [= <-]. split; [reflexivity|constructor].
  - destruct (content c) as [text|] eqn:Ec; [|discriminate].
    destruct (parse_output (task self) (strip text)) as [p|e]; [|discriminate].
    destruct (parse_run self cs) as [texts [e|ps']]; cbn [fst snd] in *;
      [discriminate|].
    intros [= <-]. destruct (IH ps' eq_refl) as [Hlen Hall].
    split; [cbn; now rewrite Hlen|].
    constructor; [now exists text|exact Hall].
Qed.

(** The exception the comprehension ends with is the one of some choice. *)
Lemma parse_run_error self cs e :
  snd (parse_run self cs) = inl e ->
  exists c, In c cs /\ choice_raises self c e.
Proof.
  induction cs as [|c cs IH]; cbn [parse_run]; [discriminate|].
  destruct (content c) as [text|] eqn:Ec.
  - destruct (parse_output (task self) (strip text)) as [p|e'] eqn:Ep.
    + destruct (parse_run self cs) as [texts [e'|ps]]; cbn [snd] in *;
        [|discriminate].
      intros [= ->]. destruct (IH eq_refl) as (c' & Hin & Hc').
      exists c'. split; [now right|exact Hc'].
    + cbn. intros [= ->]. exists c. split; [now left|].
      unfold choice_raises. now rewrite Ec.
  - cbn. intros [= <-]. exists c. split; [now left|].
    unfold choice_raises. now rewrite Ec.
Qed.

(** A choice on which the parser raises keeps the comprehension from
    completing. *)
Lemma parse_run_fails self cs c text e :
  In c cs -> content c = Some text ->
  parse_output (task self) (strip text) = Raises e ->
  exists e', snd (parse_run self cs) = inl e'.
Proof.
  intros Hin Hc Hp. induction cs as [|c0 cs IH]; [destruct Hin|].
  cbn [parse_run].
  destruct (content c0) as [text0|] eqn:Ec0; [|now eexists].
  destruct (parse_output (task self) (strip text0)) as [p|e0] eqn:Ep0;
    [|now eexists].
  destruct Hin as [->|Hin]; [congruence|].
  destruct (IH Hin) as (e' & He').
  destruct (parse_run self cs) as [texts r]; cbn [snd] in *.
  subst r. now eexists.
Qed.

(** ** From the input record to the raw response *)

Lemma emits_resolve_prompt self prompt :
  emits (fun ev => is_prompt_event ev = true) (resolve_prompt self prompt).
Proof.
  unfold resolve_prompt, warn.
  destruct prompt, (formatting_fn self); emits_steps.
Qed.

Lemma emits_prepare_prompt self input :
  emits (fun ev => is_prompt_event ev = true) (prepare_prompt self input).
Proof.
  unfold prepare_prompt. emits_steps. apply emits_resolve_prompt.
Qed.

Lemma emits_require_list P prompt : emits P (require_list prompt).
Proof. unfold require_list. destruct prompt; emits_steps. Qed.

(** Lines 95-104 never touch the network state. *)
Lemma prepare_prompt_completions self input s :
  completions (snd (prepare_prompt self input s)) = completions s.
Proof.
  unfold prepare_prompt, resolve_prompt, warn, bind, emit, lift.
  cbn. destruct (generate_prompt (task self) input) as [v|e]; [|reflexivity].
  cbn. destruct v, (formatting_fn self) as [fn|]; cbn; try reflexivity;
    match goal with |- context [match ?o with Returns _ => _ | Raises _ => _ end] =>
      destruct o end; reflexivity.
Qed.

Lemma emits_request_completion fuel self input n :
  emits (fun ev => forall t, ev <> EvParseOutput t)
        (request_completion fuel self input n).
Proof.
  unfold request_completion.
  apply emits_bind.
  { eapply emits_weaken; [|apply emits_prepare_prompt].
    intros ev H t ->. discriminate. }
  intros prompt. apply emits_bind; [apply emits_require_list|]. intros messages.
  eapply emits_weaken; [|apply emits_backoff].
  intros ev [H _] t ->. discriminate.
Qed.

(** ** [_generate]: the parsed outputs *)

Lemma generate_after_request fuel self input n s raw s1 :
  request_completion fuel self input n s = (Ok raw, s1) ->
  _generate fuel self input n s =
  match snd (parse_run self (choices raw)) with
  | inl e =>
      (Ok (to_dict_recursive raw, []),
       extend s1 (map EvParseOutput (fst (parse_run self (choices raw)))
                  ++ [EvWarn (parse_error_warning e)]))
  | inr ps =>
      (Ok (to_dict_recursive raw, ps),
       extend s1 (map EvParseOutput (fst (parse_run self (choices raw)))))
  end.
Proof.
  intros H. unfold _generate. unfold bind at 1. rewrite H.
  unfold bind at 1. rewrite parse_choices_run.
  now destruct (snd (parse_run self (choices raw))).
Qed.

Lemma generate_without_response fuel self input n s :
  (forall raw, fst (request_completion fuel self input n s) <> Ok raw) ->
  snd (_generate fuel self input n s) =
    snd (request_completion fuel self input n s) /\
  forall out, fst (_generate fuel self input n s) <> Ok out.
Proof.
  intros H. unfold _generate. unfold bind at 1 3.
  destruct (request_completion fuel self input n s) as [[raw|e|] s1]; cbn in *.
  - now destruct (H raw).
  - split; [reflexivity|discriminate].
  - split; [reflexivity|discriminate].
Qed.

(** C4: once the completion has returned a raw response, a choice on which
    the task's parser raises makes [_generate] return normally with that
    raw response and an empty parsed list, after one warning whose text
    ends with the [str()] of the exception that ended the parsing. *)
Theorem generate_parse_failure_empties_parsed
    fuel self input n s raw s1 c text e :
  request_completion fuel self input n s = (Ok raw, s1) ->
  In c (choices raw) ->
  content c = Some text ->
  parse_output (task self) (strip text) = Raises e ->
  exists e' c' texts,
    In c' (choices raw) /\ choice_raises self c' e' /\
    _generate fuel self input n s =
      (Ok (to_dict_recursive raw, []),
       extend s1 (map EvParseOutput texts
                  ++ [EvWarn ("Error parsing OpenAI response: " ++ exc_str e')])).
Proof.
  intros Hreq Hin Hc Hp.
  destruct (parse_run_fails self _ _ Hin Hc Hp) as (e' & He').
  destruct (parse_run_error self _ He') as (c' & Hin' & Hc').
  exists e', c', (fst (parse_run self (choices raw))).
  repeat split; trivial.
  rewrite (@generate_after_request _ _ _ _ _ _ _ Hreq), He'. reflexivity.
Qed.

(** C6: whenever [_generate] returns a pair, the parsed list is no longer
    than the list of choices of the raw response. *)
Theorem generate_parsed_at_most_choices fuel self input n s raw parsed s' :
  _generate fuel self input n s = (Ok (raw, parsed), s') ->
  List.length parsed <= List.length (choices raw).
Proof.
  intros H.
  destruct (request_completion fuel self input n s) as [[raw0|e|] s1] eqn:Hreq.
  - rewrite (@generate_after_request _ _ _ _ _ _ _ Hreq) in H.
    destruct (snd (parse_run self (choices raw0))) as [e|ps] eqn:Hrun;
      injection H as <- <- _.
    + cbn. lia.
    + unfold to_dict_recursive.
      destruct (parse_run_all self _ Hrun) as [-> _]. lia.
  - destruct (@generate_without_response fuel self input n s) as [_ Hno].
    { rewrite Hreq. cbn. discriminate. }
    rewrite H in Hno. now destruct (Hno (raw, parsed)).
  - destruct (@generate_without_response fuel self input n s) as [_ Hno].
    { rewrite Hreq. cbn. discriminate. }
    rewrite H in Hno. now destruct (Hno (raw, parsed)).
Qed.

Lemma parse_texts_app tr tr' :
  parse_texts (tr ++ tr') = parse_texts tr ++ parse_texts tr'.
Proof.
  induction tr as [|ev tr IH]; [reflexivity|].
  destruct ev; cbn; now rewrite ?IH.
Qed.

Lemma parse_texts_other evs :
  Forall (fun ev => forall t, ev <> EvParseOutput t) evs -> parse_texts evs = [].
Proof.
  induction 1 as [|ev evs Hev _ IH]; [reflexivity|].
  destruct ev; cbn; trivial. now destruct (Hev text).
Qed.

Lemma parse_texts_map texts : parse_texts (map EvParseOutput texts) = texts.
Proof. induction texts as [|t texts IH]; cbn; now rewrite ?IH. Qed.

(** ** [_generate] ends *)

Lemma terminates_bind {A B} (m : M A) (k : A -> M B) :
  terminates m -> (forall a, terminates (k a)) -> terminates (bind m k).
Proof.
  intros Hm Hk s. unfold bind. specialize (Hm s).
  destruct (m s) as [[a|e|] s1]; cbn in *; try discriminate.
  - apply Hk.
  - now destruct Hm.
Qed.

Lemma terminates_lift {A} (o : outcome A) : terminates (lift o).
Proof. intros s. destruct o; discriminate. Qed.

Lemma terminates_emit ev : terminates (emit ev).
Proof. intros s. discriminate. Qed.

Lemma terminates_try_except {A} (m : M A) handler :
  terminates m -> (forall e, terminates (handler e)) ->
  terminates (try_except m handler).
Proof.
  intros Hm Hh s. unfold try_except. specialize (Hm s).
  destruct (m s) as [[a|e|] s1]; cbn in *; try discriminate.
  - apply Hh.
  - now destruct Hm.
Qed.

Lemma terminates_comprehension {A B} (f : A -> M B) l :
  (forall a, terminates (f a)) -> terminates (comprehension f l).
Proof.
  intros Hf. induction l as [|a l IH]; cbn [comprehension].
  - intros s. discriminate.
  - apply terminates_bind; [apply Hf|]. intros b.
    apply terminates_bind; [apply IH|]. intros bs s. discriminate.
Qed.

Lemma terminates_parse_choices self raw : terminates (parse_choices self raw).
Proof.
  unfold parse_choices. apply terminates_try_except.
  - apply terminates_comprehension. intros c. unfold parse_choice.
    destruct (content c); [|intros s; discriminate].
    apply terminates_bind; [apply terminates_emit|intros _; apply terminates_lift].
  - intros e. apply terminates_bind; [apply terminates_emit|].
    intros _ s. discriminate.
Qed.

(** Python's [while True] in tenacity is left by the policy itself: fuel
    for [_OPENAI_API_STOP_AFTER_ATTEMPT] rounds is never used up, whatever
    the task, the formatter and the provider do. *)
Lemma generate_terminates fuel self input n :
  _OPENAI_API_STOP_AFTER_ATTEMPT <= fuel ->
  terminates (_generate fuel self input n).
Proof.
  intros Hfuel. unfold _generate, request_completion, prepare_prompt.
  apply terminates_bind.
  - apply terminates_bind.
    + apply terminates_bind; [apply terminates_emit|intros _].
      apply terminates_bind; [apply terminates_lift|intros v].
      unfold resolve_prompt, warn.
      destruct v, (formatting_fn self);
        repeat (apply terminates_bind; [apply terminates_emit|intros _]);
        try apply terminates_lift; intros ?; discriminate.
    + intros v. apply terminates_bind.
      * unfold require_list. destruct v; try (intros ?; discriminate);
          (apply terminates_bind;
           [apply terminates_lift|intros ? ?; discriminate]).
      * intros ms s. apply retry_never_out_of_fuel;
          unfold _OPENAI_API_STOP_AFTER_ATTEMPT in *; lia.
  - intros raw. apply terminates_bind; [apply terminates_parse_choices|].
    intros parsed s. discriminate.
Qed.

(** ** [_generate]: the prompt *)

Lemma generate_split fuel self input n s :
  _generate fuel self input n s =
  bind (prepare_prompt self input) (after_prompt fuel self n) s.
Proof.
  unfold _generate, request_completion, after_prompt, bind.
  destruct (prepare_prompt self input s) as [[v|e|] s1]; trivial.
  destruct (require_list v s1) as [[ms|e|] s2]; trivial.
Qed.

(** Building the message of line 107 raises before [ValueError(...)] is
    constructed. *)
Lemma not_a_list_message_raises prompt :
  not_a_list_message prompt = Raises missing_precision.
Proof. reflexivity. Qed.

Lemma require_list_not_list prompt s :
  isinstance_list prompt = false ->
  require_list prompt s = (Raise missing_precision, s).
Proof.
  destruct prompt; cbn; try discriminate; intros _;
    unfold bind; now rewrite not_a_list_message_raises.
Qed.

Lemma after_prompt_not_list fuel self n prompt s :
  isinstance_list prompt = false ->
  after_prompt fuel self n prompt s = (Raise missing_precision, s).
Proof.
  intros H. unfold after_prompt. unfold bind at 1.
  now rewrite require_list_not_list.
Qed.

Lemma emits_parse_choices self raw :
  emits (fun ev => is_completion_call ev = false) (parse_choices self raw).
Proof.
  unfold parse_choices, warn. apply emits_try_except.
  - apply emits_comprehension. intros c. unfold parse_choice.
    destruct (content c); emits_steps.
  - intros e. emits_steps.
Qed.

(** With fuel for one round, the retried call starts by calling the
    endpoint. *)
Lemma backoff_first_event fuel kwargs s :
  0 < fuel ->
  exists tl, trace (snd (_chat_completion_with_backoff fuel kwargs s)) =
             trace s ++ EvChatCompletion kwargs :: tl.
Proof.
  destruct fuel as [|fuel]; [lia|]. intros _.
  unfold _chat_completion_with_backoff. rewrite backoff_round.
  destruct (ChatCompletion_create w (completions s) kwargs) as [r|e];
    [now exists []|].
  destruct (isinstance e _OPENAI_API_RETRY_ON_EXCEPTIONS); [|now exists []].
  destruct (_OPENAI_API_STOP_AFTER_ATTEMPT <=? 1)%nat; [now eexists|].
  destruct (@emits_retrying_call _ (fun _ => True) backoff_policy (create kwargs))
    with (fuel := fuel) (a := 2)
         (s := advance s (failed_attempt_events kwargs 1) 1)
    as (evs & Htr & _).
  - now apply emits_create.
  - now intros a.
  - rewrite Htr. cbn [advance trace failed_attempt_events].
    rewrite <- app_assoc. now eexists.
Qed.

(** What the run adds to the trace once the prompt is resolved: every
    completion request carries the resolved prompt as its messages, and
    when the resolved prompt is a list the request is issued first. *)
Lemma after_prompt_trace fuel self n prompt s :
  exists tail,
    trace (snd (after_prompt fuel self n prompt s)) = trace s ++ tail /\
    (forall kw, In (EvChatCompletion kw) tail ->
       exists messages,
         prompt = VList messages /\ kw = completion_kwargs self messages n) /\
    (forall messages,
       0 < fuel -> prompt = VList messages ->
       exists tail',
         tail = EvChatCompletion (completion_kwargs self messages n) :: tail').
Proof.
  destruct (isinstance_list prompt) eqn:Hl.
  - destruct prompt as [|messages| | |]; try discriminate.
    set (kwargs := completion_kwargs self messages n).
    unfold after_prompt. cbn [require_list]. unfold bind at 1, ret at 1.
    fold kwargs. unfold bind at 1.
    destruct (emits_backoff fuel kwargs s) as (evs1 & Ht1 & H1).
    assert (Hfirst : 0 < fuel -> exists tl, evs1 = EvChatCompletion kwargs :: tl).
    { intros Hf. destruct (backoff_first_event kwargs s Hf) as (tl & Htl).
      exists tl. rewrite Ht1 in Htl. now apply app_inv_head in Htl. }
    assert (Hkw1 : forall kw, In (EvChatCompletion kw) evs1 -> kw = kwargs).
    { intros kw Hin. rewrite Forall_forall in H1.
      now apply (H1 _ Hin). }
    destruct (_chat_completion_with_backoff fuel kwargs s) as [[raw|e|] s1];
      cbn [snd] in Ht1.
    + unfold bind at 1.
      destruct (emits_parse_choices self raw s1) as (evs2 & Ht2 & H2).
      destruct (parse_choices self raw s1) as [[parsed|e|] s2];
        cbn [snd ret] in *; exists (evs1 ++ evs2);
        (split; [now rewrite Ht2, Ht1, app_assoc|]);
        (split;
         [intros kw Hin; exists messages; split; [reflexivity|];
          apply in_app_or in Hin; destruct Hin as [Hin|Hin];
          [now apply Hkw1|];
          rewrite Forall_forall in H2; now specialize (H2 _ Hin)
         |intros ms Hf [= <-]; destruct (Hfirst Hf) as (tl & ->);
          now exists (tl ++ evs2)]).
    + exists evs1. split; [exact Ht1|]. split.
      * intros kw Hin. exists messages. split; [reflexivity|now apply Hkw1].
      * intros ms Hf [= <-]. exact (Hfirst Hf).
    + exists evs1. split; [exact Ht1|]. split.
      * intros kw Hin. exists messages. split; [reflexivity|now apply Hkw1].
      * intros ms Hf [= <-]. exact (Hfirst Hf).
  - rewrite after_prompt_not_list by exact Hl. exists []. cbn.
    rewrite app_nil_r. repeat split.
    + intros kw [].
    + intros messages _ ->. discriminate.
Qed.


(** The shape shared by the two formatting branches: a call that yields
    the formatted prompt, recorded by [evs], then lines 105-126. *)
Lemma formatted_then_rest fuel self n (o : outcome value) s evs :
  exists tail,
    trace (snd (bind (lift o) (after_prompt fuel self n) (extend s evs))) =
      trace s ++ evs ++ tail /\
    (forall kw, In (EvChatCompletion kw) tail ->
       exists messages,
         o = Returns (VList messages) /\ kw = completion_kwargs self messages n) /\
    (forall messages,
       0 < fuel -> o = Returns (VList messages) ->
       exists tail',
         tail = EvChatCompletion (completion_kwargs self messages n) :: tail').
Proof.
  destruct o as [v|e]; unfold bind, lift, ret, raise.
  - destruct (after_prompt_trace fuel self n v (extend s evs))
      as (tail & Ht & Hkw & Hfirst).
    exists tail. cbn [extend trace] in Ht. rewrite Ht, <- app_assoc.
    split; [reflexivity|]. split.
    + intros kw Hin. destruct (Hkw kw Hin) as (ms & -> & ->). now exists ms.
    + intros ms Hf [= ->]. now apply Hfirst.
  - exists []. cbn. rewrite app_nil_r. repeat split.
    + intros kw [].
    + discriminate.
Qed.

(** C7: when the task's prompt is a [Prompt] and no formatting function is
    set, [_generate] calls [prompt.format_as] with target ["openai"] right
    after [generate_prompt]; every completion request comes after that
    call and carries the converted prompt as its messages, and a converted
    prompt that is a list is sent as the next step. *)
Theorem generate_converts_Prompt_for_openai fuel self input n s p :
  generate_prompt (task self) input = Returns (VPrompt p) ->
  formatting_fn self = None ->
  exists tail,
    trace (snd (_generate fuel self input n s)) =
      trace s ++ [EvGeneratePrompt input; EvFormatAs p "openai"] ++ tail /\
    (forall kw, In (EvChatCompletion kw) tail ->
       exists messages,
         format_as w p "openai" = Returns (VList messages) /\
         kw = completion_kwargs self messages n) /\
    (forall messages,
       0 < fuel -> format_as w p "openai" = Returns (VList messages) ->
       exists tail',
         tail = EvChatCompletion (completion_kwargs self messages n) :: tail').
Proof.
  intros Hgp Hfn.
  assert (Hrun : _generate fuel self input n s =
                 bind (lift (format_as w p "openai")) (after_prompt fuel self n)
                      (extend s [EvGeneratePrompt input; EvFormatAs p "openai"])).
  { rewrite generate_split.
    unfold prepare_prompt, resolve_prompt, bind, emit. rewrite Hgp, Hfn.
    cbn [lift ret]. unfold extend, record_event. cbn [trace api_key completions].
    now rewrite <- app_assoc. }
  rewrite Hrun. apply formatted_then_rest.
Qed.

(** C8: when the task's prompt is not a [Prompt] and a formatting function
    is set, [_generate] first warns, then applies the formatting function
    to the prompt; every completion request comes after that and carries
    the function's result as its messages. *)
Theorem generate_warns_then_formats fuel self input n s v fn :
  generate_prompt (task self) input = Returns v ->
  isinstance_Prompt v = false ->
  formatting_fn self = Some fn ->
  exists tail,
    trace (snd (_generate fuel self input n s)) =
      trace s ++ [EvGeneratePrompt input; EvWarn (preformatted_warning v);
                  EvFormattingFn v] ++ tail /\
    (forall kw, In (EvChatCompletion kw) tail ->
       exists messages,
         fn v = Returns (VList messages) /\
         kw = completion_kwargs self messages n) /\
    (forall messages,
       0 < fuel -> fn v = Returns (VList messages) ->
       exists tail',
         tail = EvChatCompletion (completion_kwargs self messages n) :: tail').
Proof.
  intros Hgp Hv Hfn.
  assert (Hrun : _generate fuel self input n s =
                 bind (lift (fn v)) (after_prompt fuel self n)
                      (extend s [EvGeneratePrompt input;
                                 EvWarn (preformatted_warning v);
                                 EvFormattingFn v])).
  { rewrite generate_split.
    unfold prepare_prompt, resolve_prompt, bind, warn, emit. rewrite Hgp, Hfn.
    cbn [lift ret]. unfold extend, record_event.
    destruct v; try discriminate; cbn [trace api_key completions];
      now rewrite <- !app_assoc. }
  rewrite Hrun. apply formatted_then_rest.
Qed.

(** C9, what the code does: a resolved prompt that is not a list makes
    [_generate] raise a [ValueError] before any completion request, but
    the error is the one raised while building the message of line 107, so
    its text is the same for every prompt and names no type. *)
Theorem generate_non_list_prompt_raises fuel self input n s v s1 :
  prepare_prompt self input s = (Ok v, s1) ->
  isinstance_list v = false ->
  _generate fuel self input n s =
    (Raise (Exc ValueError "Format specifier missing precision"), s1) /\
  completions s1 = completions s /\
  exists evs, trace s1 = trace s ++ evs /\
              Forall (fun ev => is_network_call ev = false) evs.
Proof.
  intros Hprep Hv. split; [|split].
  - rewrite generate_split. unfold bind. rewrite Hprep.
    now apply after_prompt_not_list.
  - pose proof (prepare_prompt_completions self input s) as H.
    now rewrite Hprep in H.
  - destruct (emits_prepare_prompt self input s) as (evs & Ht & Hevs).
    rewrite Hprep in Ht. exists evs. split; [exact Ht|].
    eapply Forall_impl; [|exact Hevs]. now intros [] H.
Qed.

(** The text of that error contains the type of no prompt. *)
Lemma missing_precision_names_no_type (v : value) :
  is_substring (type_repr v) (exc_str missing_precision) = false.
Proof. destruct v; reflexivity. Qed.

(** C5, what the code does: with a [Prompt] and a formatting function,
    neither formatting branch is taken; the formatting function is never
    called and the untouched [Prompt] fails the list check. *)
Theorem generate_Prompt_with_formatting_fn_raises fuel self input n s p fn :
  generate_prompt (task self) input = Returns (VPrompt p) ->
  formatting_fn self = Some fn ->
  _generate fuel self input n s =
    (Raise (Exc ValueError "Format specifier missing precision"),
     extend s [EvGeneratePrompt input]).
Proof.
  intros Hgp Hfn. rewrite generate_split.
  unfold prepare_prompt, resolve_prompt. unfold bind at 1 2 3, emit.
  rewrite Hgp, Hfn. cbn [lift ret].
  now apply after_prompt_not_list.
Qed.

(** ** The constructor *)

(** C1, what the code does: with no key argument and no [OPENAI_API_KEY]
    in the environment, the constructor calls [openai.Model.list()] once,
    with no key, before it raises anything; the assertion on the key is
    reached only if that call returns a listing that has the model. *)
Theorem init_without_credential_lists_models_first
    task_ model_ max_new_tokens_ temperature_ num_threads_ formatting_fn_ s :
  environ_get w "OPENAI_API_KEY" = None ->
  __init__ task_ model_ None max_new_tokens_ temperature_ num_threads_
           formatting_fn_ s =
    (Raise
       match Model_list w None with
       | Raises e => e
       | Returns listing =>
           let ids := model_ids (match listing with
                                 | Some data => data
                                 | None => []
                                 end) in
           if in_list model_ ids
           then Exc AssertionError missing_api_key_message
           else Exc AssertionError (model_not_available_message ids)
       end,
     {| trace := trace s ++ [EvModelList None];
        api_key := None;
        completions := completions s |}).
Proof.
  intros Henv. unfold __init__, bind, set_api_key, available_models.
  rewrite Henv. cbn [py_or available_models_cache].
  unfold bind, get_api_key, emit, record_event. cbn [api_key trace completions].
  destruct (Model_list w None) as [listing|e]; cbn [lift ret raise]; [|reflexivity].
  destruct (in_list model_ _); reflexivity.
Qed.

(** * Further properties *)

(** ** The retried call, whatever the endpoint does *)

Definition is_sleep (ev : event) : bool :=
  match ev with EvSleep _ => true | _ => false end.

(** How often the loop slept, and how often it called the endpoint. *)
Definition sleeps (tr : list event) : nat :=
  List.length (filter is_sleep tr).

Definition completion_calls (tr : list event) : nat :=
  List.length (filter is_completion_call tr).

Lemma sleeps_app tr tr' : sleeps (tr ++ tr') = sleeps tr + sleeps tr'.
Proof. unfold sleeps. now rewrite filter_app, length_app. Qed.

Lemma completion_calls_app tr tr' :
  completion_calls (tr ++ tr') = completion_calls tr + completion_calls tr'.
Proof. unfold completion_calls. now rewrite filter_app, length_app. Qed.

Lemma failed_attempts_counts kwargs k :
  forall a,
    sleeps (flat_map (failed_attempt_events kwargs) (seq a k)) = k /\
    completion_calls (flat_map (failed_attempt_events kwargs) (seq a k)) = k.
Proof.
  induction k as [|k IH]; intros a; [now split|].
  cbn [seq flat_map]. rewrite sleeps_app, completion_calls_app.
  destruct (IH (S a)) as [-> ->]. now split.
Qed.

(** The three ways a run of the loop can go, when it starts at attempt
    [a] with [n] further attempts allowed: after [k] transient failures
    the endpoint returns, or raises an error outside the retry set, or
    fails transiently on the last allowed attempt. *)
Lemma backoff_cases kwargs :
  forall n fuel a s,
    a + n = _OPENAI_API_STOP_AFTER_ATTEMPT ->
    n < fuel ->
    exists k,
      k <= n /\
      (forall i, i < k -> transient_at kwargs (completions s + i)) /\
      ((exists r,
          ChatCompletion_create w (completions s + k) kwargs = Returns r /\
          retrying_call backoff_policy (create kwargs) fuel a s =
            (Ok r,
             advance s (flat_map (failed_attempt_events kwargs) (seq a k)
                        ++ [EvChatCompletion kwargs]) (S k)))
       \/
       (exists e,
          ChatCompletion_create w (completions s + k) kwargs = Raises e /\
          isinstance e _OPENAI_API_RETRY_ON_EXCEPTIONS = false /\
          retrying_call backoff_policy (create kwargs) fuel a s =
            (Raise e,
             advance s (flat_map (failed_attempt_events kwargs) (seq a k)
                        ++ [EvChatCompletion kwargs]) (S k)))
       \/
       (exists e,
          k = n /\
          ChatCompletion_create w (completions s + k) kwargs = Raises e /\
          isinstance e _OPENAI_API_RETRY_ON_EXCEPTIONS = true /\
          retrying_call backoff_policy (create kwargs) fuel a s =
            (Raise (RetryError e),
             advance s (flat_map (failed_attempt_events kwargs) (seq a k)
                        ++ [EvChatCompletion kwargs;
                            EvAfterLog _OPENAI_API_STOP_AFTER_ATTEMPT])
                     (S k)))).
Proof.
  induction n as [|n IH]; intros fuel a s Ha Hf;
    (destruct fuel as [|fuel]; [lia|]); rewrite backoff_round;
    destruct (ChatCompletion_create w (completions s) kwargs) as [r|e] eqn:E.
  - exists 0. split; [lia|]. split; [intros i Hi; lia|].
    rewrite Nat.add_0_r. left. exists r. now split.
  - exists 0. split; [lia|]. split; [intros i Hi; lia|].
    rewrite Nat.add_0_r.
    destruct (isinstance e _OPENAI_API_RETRY_ON_EXCEPTIONS) eqn:Hi.
    + destruct (Nat.leb_spec _OPENAI_API_STOP_AFTER_ATTEMPT a); [|lia].
      right; right. exists e. replace a with _OPENAI_API_STOP_AFTER_ATTEMPT by lia.
      now repeat split.
    + right; left. exists e. now repeat split.
  - exists 0. split; [lia|]. split; [intros i Hi; lia|].
    rewrite Nat.add_0_r. left. exists r. now split.
  - destruct (isinstance e _OPENAI_API_RETRY_ON_EXCEPTIONS) eqn:Hi.
    + destruct (Nat.leb_spec _OPENAI_API_STOP_AFTER_ATTEMPT a); [lia|].
      destruct (IH fuel (S a) (advance s (failed_attempt_events kwargs a) 1))
        as (k & Hk & Htr & Hcases); [lia|lia|].
      cbn [advance completions] in Htr, Hcases.
      assert (Hidx : forall j, completions s + 1 + j = completions s + S j)
        by (intros; lia).
      exists (S k). split; [lia|]. split.
      { intros [|i] Hi'.
        - rewrite Nat.add_0_r. now exists e.
        - rewrite <- Hidx. apply Htr. lia. }
      rewrite <- (Hidx k). cbn [seq flat_map]. rewrite <- !app_assoc.
      destruct Hcases
        as [(r & Hr & ->)|[(e' & He' & Hn & ->)|(e' & -> & He' & Hy & ->)]];
        rewrite advance_advance.
      * left. exists r. now split.
      * right; left. exists e'. now repeat split.
      * right; right. exists e'. now repeat split.
    + exists 0. split; [lia|]. split; [intros i Hi'; lia|].
      rewrite Nat.add_0_r. right; left. exists e. now repeat split.
Qed.

Lemma backoff_cases_from_start kwargs s fuel :
  _OPENAI_API_STOP_AFTER_ATTEMPT <= fuel ->
  exists k,
    k <= 5 /\
    (forall i, i < k -> transient_at kwargs (completions s + i)) /\
    ((exists r,
        ChatCompletion_create w (completions s + k) kwargs = Returns r /\
        _chat_completion_with_backoff fuel kwargs s =
          (Ok r,
           advance s (flat_map (failed_attempt_events kwargs) (seq 1 k)
                      ++ [EvChatCompletion kwargs]) (S k)))
     \/
     (exists e,
        ChatCompletion_create w (completions s + k) kwargs = Raises e /\
        isinstance e _OPENAI_API_RETRY_ON_EXCEPTIONS = false /\
        _chat_completion_with_backoff fuel kwargs s =
          (Raise e,
           advance s (flat_map (failed_attempt_events kwargs) (seq 1 k)
                      ++ [EvChatCompletion kwargs]) (S k)))
     \/
     (exists e,
        k = 5 /\
        ChatCompletion_create w (completions s + k) kwargs = Raises e /\
        isinstance e _OPENAI_API_RETRY_ON_EXCEPTIONS = true /\
        _chat_completion_with_backoff fuel kwargs s =
          (Raise (RetryError e),
           advance s (flat_map (failed_attempt_events kwargs) (seq 1 k)
                      ++ [EvChatCompletion kwargs;
                          EvAfterLog _OPENAI_API_STOP_AFTER_ATTEMPT])
                   (S k)))).
Proof.
  intros Hfuel. unfold _chat_completion_with_backoff.
  apply backoff_cases; unfold _OPENAI_API_STOP_AFTER_ATTEMPT in *; lia.
Qed.

(** X1: whatever the endpoint does, one call of
    [_chat_completion_with_backoff] calls it at least once and at most six
    times, sleeps once between two consecutive calls and at no other time,
    and leaves [openai.api_key] alone. *)
Theorem backoff_call_bounds kwargs s fuel :
  _OPENAI_API_STOP_AFTER_ATTEMPT <= fuel ->
  exists evs,
    trace (snd (_chat_completion_with_backoff fuel kwargs s)) = trace s ++ evs /\
    completions (snd (_chat_completion_with_backoff fuel kwargs s)) =
      completions s + completion_calls evs /\
    1 <= completion_calls evs <= _OPENAI_API_STOP_AFTER_ATTEMPT /\
    sleeps evs + 1 = completion_calls evs /\
    api_key (snd (_chat_completion_with_backoff fuel kwargs s)) = api_key s.
Proof.
  intros Hfuel.
  destruct (backoff_cases_from_start kwargs s Hfuel) as (k & Hk & _ & Hcases).
  destruct (failed_attempts_counts kwargs k 1) as [Hsl Hcc].
  unfold _OPENAI_API_STOP_AFTER_ATTEMPT.
  destruct Hcases as [(r & _ & ->)|[(e & _ & _ & ->)|(e & _ & _ & _ & ->)]];
    cbn [snd advance trace completions api_key];
    eexists; (split; [reflexivity|]);
    rewrite sleeps_app, completion_calls_app, Hsl, Hcc; cbn;
    repeat split; lia.
Qed.

(** X2: [_chat_completion_with_backoff] never hands one of the four
    retried error kinds to its caller: what it raises is either an error
    outside the retry set or a [RetryError]. *)
Theorem backoff_never_raises_transient kwargs s fuel e :
  _OPENAI_API_STOP_AFTER_ATTEMPT <= fuel ->
  fst (_chat_completion_with_backoff fuel kwargs s) = Raise e ->
  isinstance e _OPENAI_API_RETRY_ON_EXCEPTIONS = false.
Proof.
  intros Hfuel.
  destruct (backoff_cases_from_start kwargs s Hfuel) as (k & _ & _ & Hcases).
  destruct Hcases as [(r & _ & ->)|[(e' & _ & Hn & ->)|(e' & _ & _ & _ & ->)]];
    cbn [fst]; intros [= <-]; trivial.
Qed.

(** X3: an error outside the retry set that the endpoint raises on a
    retry, after up to five transient failures, is raised as it is - not
    wrapped in [RetryError] - and ends the run: the endpoint is not called
    again. *)
Theorem backoff_other_error_after_retries kwargs s fuel k e :
  _OPENAI_API_STOP_AFTER_ATTEMPT <= fuel ->
  k < 6 ->
  (forall i, i < k -> transient_at kwargs (completions s + i)) ->
  ChatCompletion_create w (completions s + k) kwargs = Raises e ->
  isinstance e _OPENAI_API_RETRY_ON_EXCEPTIONS = false ->
  _chat_completion_with_backoff fuel kwargs s =
    (Raise e,
     advance s (flat_map (failed_attempt_events kwargs) (seq 1 k)
                ++ [EvChatCompletion kwargs]) (S k)).
Proof.
  unfold _OPENAI_API_STOP_AFTER_ATTEMPT. intros Hfuel Hk Htr He Hin.
  unfold _chat_completion_with_backoff.
  apply retry_stops_at_other_error; trivial;
    unfold _OPENAI_API_STOP_AFTER_ATTEMPT; lia.
Qed.

(** X4: a response that [_chat_completion_with_backoff] returns is the
    one the endpoint gave on the last call made, and every call before it
    failed with a retried error kind. *)
Theorem backoff_returns_last_response kwargs s fuel r :
  _OPENAI_API_STOP_AFTER_ATTEMPT <= fuel ->
  fst (_chat_completion_with_backoff fuel kwargs s) = Ok r ->
  exists k,
    k < 6 /\
    completions (snd (_chat_completion_with_backoff fuel kwargs s)) =
      completions s + S k /\
    ChatCompletion_create w (completions s + k) kwargs = Returns r /\
    forall i, i < k -> transient_at kwargs (completions s + i).
Proof.
  intros Hfuel.
  destruct (backoff_cases_from_start kwargs s Hfuel) as (k & Hk & Htr & Hcases).
  destruct Hcases as [(r' & Hr & ->)|[(e' & _ & _ & ->)|(e' & _ & _ & _ & ->)]];
    cbn [fst snd advance completions]; intros [= <-].
  exists k. repeat split; trivial. lia.
Qed.

(** ** The constructor and the model listing *)

(** [openai.Model.list().get("data", [])] *)
Definition listing_data (listing : option (list (option string)))
    : list (option string) :=
  match listing with
  | Some data => data
  | None => []
  end.

Lemma starts_with_refl sub : starts_with sub sub = true.
Proof.
  induction sub as [|c sub IH]; [reflexivity|].
  cbn. now rewrite Ascii.eqb_refl, IH.
Qed.

Lemma is_substring_refl sub : is_substring sub sub = true.
Proof. destruct sub; cbn; [reflexivity|]. now rewrite Ascii.eqb_refl, starts_with_refl. Qed.

Lemma is_substring_suffix pre sub :
  is_substring sub (pre ++ sub)%string = true.
Proof.
  induction pre as [|c pre IH]; [apply is_substring_refl|].
  cbn [String.append is_substring]. rewrite IH. apply orb_true_r.
Qed.

(** X5: with a resolvable key and a listing that has the model, the
    constructor returns the instance; it has set [openai.api_key] to the
    resolved key, called [openai.Model.list()] exactly once, with that key,
    and the instance holds the listed ids for later accesses. *)
Theorem init_succeeds
    task_ model_ openai_api_key max_new_tokens_ temperature_ num_threads_
    formatting_fn_ s k listing :
  py_or openai_api_key (environ_get w "OPENAI_API_KEY") = Some k ->
  Model_list w (Some k) = Returns listing ->
  in_list model_ (model_ids (listing_data listing)) = true ->
  __init__ task_ model_ openai_api_key max_new_tokens_ temperature_
           num_threads_ formatting_fn_ s =
    (Ok {| task := task_; model := model_;
           max_new_tokens := max_new_tokens_;
           temperature := temperature_;
           num_threads := num_threads_;
           formatting_fn := formatting_fn_;
           available_models_cache :=
             Some (model_ids (listing_data listing)) |},
     {| trace := trace s ++ [EvModelList (Some k)];
        api_key := Some k;
        completions := completions s |}).
Proof.
  intros Hkey Hlist Hin.
  unfold __init__, bind, set_api_key, available_models, listing_data in *.
  rewrite Hkey. cbn [available_models_cache].
  unfold bind, get_api_key, emit, record_event. cbn [api_key trace completions].
  rewrite Hlist. cbn [lift ret]. rewrite Hin. reflexivity.
Qed.

(** X6: when the listing lacks the requested model, the constructor
    raises an [AssertionError] whose message ends with the full list of
    available ids; the list shown comes from the one listing call made -
    the message does not fetch it again. *)
Theorem init_model_not_available
    task_ model_ openai_api_key max_new_tokens_ temperature_ num_threads_
    formatting_fn_ s listing :
  Model_list w (py_or openai_api_key (environ_get w "OPENAI_API_KEY"))
    = Returns listing ->
  in_list model_ (model_ids (listing_data listing)) = false ->
  __init__ task_ model_ openai_api_key max_new_tokens_ temperature_
           num_threads_ formatting_fn_ s =
    (Raise (Exc AssertionError
              (model_not_available_message (model_ids (listing_data listing)))),
     {| trace := trace s
                 ++ [EvModelList
                       (py_or openai_api_key (environ_get w "OPENAI_API_KEY"))];
        api_key := py_or openai_api_key (environ_get w "OPENAI_API_KEY");
        completions := completions s |}) /\
  is_substring (repr_str_list (model_ids (listing_data listing)))
               (model_not_available_message (model_ids (listing_data listing)))
    = true.
Proof.
  intros Hlist Hin. split.
  - unfold __init__, bind, set_api_key, available_models, listing_data in *.
    cbn [available_models_cache].
    unfold bind, get_api_key, emit, record_event. cbn [api_key trace completions].
    rewrite Hlist. cbn [lift ret]. rewrite Hin. reflexivity.
  - unfold model_not_available_message. apply is_substring_suffix.
Qed.

(** X7: an exception raised by [openai.Model.list()] leaves the
    constructor as it is; neither assertion is evaluated. *)
Theorem init_listing_error_propagates
    task_ model_ openai_api_key max_new_tokens_ temperature_ num_threads_
    formatting_fn_ s e :
  Model_list w (py_or openai_api_key (environ_get w "OPENAI_API_KEY"))
    = Raises e ->
  __init__ task_ model_ openai_api_key max_new_tokens_ temperature_
           num_threads_ formatting_fn_ s =
    (Raise e,
     {| trace := trace s
                 ++ [EvModelList
                       (py_or openai_api_key (environ_get w "OPENAI_API_KEY"))];
        api_key := py_or openai_api_key (environ_get w "OPENAI_API_KEY");
        completions := completions s |}).
Proof.
  intros Hlist.
  unfold __init__, bind, set_api_key, available_models.
  cbn [available_models_cache].
  unfold bind, get_api_key, emit, record_event. cbn [api_key trace completions].
  rewrite Hlist. reflexivity.
Qed.

(** X8: however the constructor ends, it has made exactly one listing
    call and no completion call, and [openai.api_key] holds the key the
    listing was called with: the explicit argument when that is a
    non-empty string, otherwise whatever the environment has, an empty
    argument counting as none. *)
Theorem init_resolves_key_then_lists
    task_ model_ openai_api_key max_new_tokens_ temperature_ num_threads_
    formatting_fn_ s :
  exists key,
    trace (snd (__init__ task_ model_ openai_api_key max_new_tokens_
                         temperature_ num_threads_ formatting_fn_ s))
      = trace s ++ [EvModelList key] /\
    api_key (snd (__init__ task_ model_ openai_api_key max_new_tokens_
                           temperature_ num_threads_ formatting_fn_ s)) = key /\
    completions (snd (__init__ task_ model_ openai_api_key max_new_tokens_
                               temperature_ num_threads_ formatting_fn_ s))
      = completions s /\
    (forall k, openai_api_key = Some k -> k <> "" -> key = Some k) /\
    (openai_api_key = None \/ openai_api_key = Some "" ->
     key = environ_get w "OPENAI_API_KEY").
Proof.
  exists (py_or openai_api_key (environ_get w "OPENAI_API_KEY")).
  split; [|split; [|split; [|split]]].
  1-3: unfold __init__, bind, set_api_key, available_models;
       cbn [available_models_cache];
       unfold bind, get_api_key, emit, record_event;
       cbn [api_key trace completions];
       destruct (Model_list w _) as [listing|e]; cbn [lift ret raise snd];
       [destruct (in_list model_ _); cbn [snd];
        [destruct (py_or openai_api_key _); reflexivity|reflexivity]
       |reflexivity].
  - intros k -> Hk. destruct k; [now destruct Hk|reflexivity].
  - intros [->| ->]; reflexivity.
Qed.

(** X9: the check on the key only rules out [None].  With no usable key
    argument and [OPENAI_API_KEY] set to the empty string, the constructor
    goes through as soon as the listing has the model. *)
Theorem init_accepts_empty_environment_key
    task_ model_ openai_api_key max_new_tokens_ temperature_ num_threads_
    formatting_fn_ s listing :
  openai_api_key = None \/ openai_api_key = Some "" ->
  environ_get w "OPENAI_API_KEY" = Some "" ->
  Model_list w (Some "") = Returns listing ->
  in_list model_ (model_ids (listing_data listing)) = true ->
  exists self,
    __init__ task_ model_ openai_api_key max_new_tokens_ temperature_
             num_threads_ formatting_fn_ s =
      (Ok self,
       {| trace := trace s ++ [EvModelList (Some "")];
          api_key := Some "";
          completions := completions s |}) /\
    model self = model_.
Proof.
  intros Harg Henv Hlist Hin.
  assert (Hkey : py_or openai_api_key (environ_get w "OPENAI_API_KEY")
                 = Some "").
  { rewrite Henv. destruct Harg as [->| ->]; reflexivity. }
  exists {| task := task_; model := model_;
            max_new_tokens := max_new_tokens_;
            temperature := temperature_;
            num_threads := num_threads_;
            formatting_fn := formatting_fn_;
            available_models_cache :=
              Some (model_ids (listing_data listing)) |}.
  split; [|reflexivity].
  unfold __init__, bind, set_api_key, available_models, listing_data in *.
  rewrite Hkey. cbn [available_models_cache].
  unfold bind, get_api_key, emit, record_event. cbn [api_key trace completions].
  rewrite Hlist. cbn [lift ret]. rewrite Hin. reflexivity.
Qed.

(** X10: [available_models] is fetched once per instance.  After an
    access that returned, any later access on the resulting instance gives
    the same list without calling the provider, in whatever state it is
    made. *)
Theorem available_models_fetched_once self s ids self' s' :
  available_models self s = (Ok (ids, self'), s') ->
  available_models_cache self' = Some ids /\
  forall s2, available_models self' s2 = (Ok (ids, self'), s2).
Proof.
  unfold available_models.
  destruct (available_models_cache self) as [cached|] eqn:Hc.
  - intros [= <- <- <-]. rewrite Hc. split; [reflexivity|].
    intros s2. reflexivity.
  - unfold bind, get_api_key, emit.
    destruct (Model_list w (api_key s)) as [listing|e]; cbn [lift ret raise];
      [|discriminate].
    intros [= <- <- <-]. cbn [available_models_cache]. split; [reflexivity|].
    intros s2. reflexivity.
Qed.

Lemma model_ids_filter (data : list (option string)) :
  map Some (model_ids data) =
  filter (fun entry => match entry with Some _ => true | None => false end)
         data.
Proof. induction data as [|[id|] data IH]; cbn; now rewrite ?IH. Qed.

Lemma model_ids_In (data : list (option string)) id :
  In id (model_ids data) <-> In (Some id) data.
Proof.
  induction data as [|[x|] data IH]; cbn.
  - split; intros [].
  - rewrite IH. split; intros [H|H].
    + left. now f_equal.
    + now right.
    + left. now injection H.
    + now right.
  - rewrite IH. split; [now right|]. intros [H|H]; [discriminate|exact H].
Qed.

(** X11: on a first access, the ids are exactly the ["id"] values of the
    listed entries that have one, in listing order; entries without an id
    are skipped and a listing without ["data"] gives the empty list. *)
Theorem available_models_lists_ids self s listing :
  available_models_cache self = None ->
  Model_list w (api_key s) = Returns listing ->
  exists ids self',
    available_models self s =
      (Ok (ids, self'), record_event (EvModelList (api_key s)) s) /\
    map Some ids =
      filter (fun entry => match entry with Some _ => true | None => false end)
             (listing_data listing) /\
    (forall id, In id ids <-> In (Some id) (listing_data listing)) /\
    (listing = None -> ids = []).
Proof.
  intros Hc Hlist. unfold available_models. rewrite Hc.
  unfold bind, get_api_key, emit. rewrite Hlist. cbn [lift ret].
  eexists. eexists. split; [reflexivity|].
  fold (listing_data listing).
  split; [apply model_ids_filter|]. split.
  - intros id. apply model_ids_In.
  - now intros ->.
Qed.

(** ** [_generate]: what reaches the provider *)

(** [m] leaves [openai.api_key] as it found it. *)
Definition keeps_key {A} (m : M A) : Prop :=
  forall s, api_key (snd (m s)) = api_key s.

Lemma keeps_key_ret {A} (a : A) : keeps_key (ret a).
Proof. now intros s. Qed.

Lemma keeps_key_raise {A} e : keeps_key (@raise A e).
Proof. now intros s. Qed.

Lemma keeps_key_lift {A} (o : outcome A) : keeps_key (lift o).
Proof. destruct o; now intros s. Qed.

Lemma keeps_key_emit ev : keeps_key (emit ev).
Proof. now intros s. Qed.

Lemma keeps_key_bind {A B} (m : M A) (k : A -> M B) :
  keeps_key m -> (forall a, keeps_key (k a)) -> keeps_key (bind m k).
Proof.
  intros Hm Hk s. unfold bind. specialize (Hm s).
  destruct (m s) as [[a|e|] s1]; cbn [snd] in *; trivial.
  now rewrite Hk.
Qed.

Lemma keeps_key_try_except {A} (m : M A) handler :
  keeps_key m -> (forall e, keeps_key (handler e)) ->
  keeps_key (try_except m handler).
Proof.
  intros Hm Hh s. unfold try_except. specialize (Hm s).
  destruct (m s) as [[a|e|] s1]; cbn [snd] in *; trivial.
  now rewrite Hh.
Qed.

Lemma keeps_key_attempt {A} (m : M A) : keeps_key m -> keeps_key (attempt m).
Proof.
  intros Hm s. unfold attempt. specialize (Hm s).
  now destruct (m s) as [[a|e|] s1].
Qed.

Lemma keeps_key_comprehension {A B} (f : A -> M B) l :
  (forall a, keeps_key (f a)) -> keeps_key (comprehension f l).
Proof.
  intros Hf. induction l as [|a l IH]; cbn [comprehension].
  - apply keeps_key_ret.
  - apply keeps_key_bind; [apply Hf|]. intros b.
    apply keeps_key_bind; [apply IH|]. intros bs. apply keeps_key_ret.
Qed.

Lemma keeps_key_create kwargs : keeps_key (create kwargs).
Proof.
  intros s. unfold create.
  now destruct (ChatCompletion_create w (completions s) kwargs).
Qed.

Ltac keeps_key_steps :=
  repeat first
    [ apply keeps_key_ret
    | apply keeps_key_raise
    | apply keeps_key_lift
    | apply keeps_key_emit
    | apply keeps_key_bind; [|intro] ].

Lemma keeps_key_retrying_call {A} r (fn : M A) :
  keeps_key fn -> forall fuel a, keeps_key (retrying_call r fn fuel a).
Proof.
  intros Hfn. induction fuel as [|fuel IH]; intros a; cbn [retrying_call].
  - now intros s.
  - apply keeps_key_bind; [now apply keeps_key_attempt|]. intros [x|e].
    + apply keeps_key_ret.
    + destruct (retry r e); [|apply keeps_key_raise].
      apply keeps_key_bind; [apply keeps_key_emit|]. intros _.
      destruct (stop r a).
      * destruct (reraise r); apply keeps_key_raise.
      * keeps_key_steps. apply IH.
Qed.

Lemma keeps_key_generate fuel self input n :
  keeps_key (_generate fuel self input n).
Proof.
  unfold _generate, request_completion, prepare_prompt.
  apply keeps_key_bind.
  - apply keeps_key_bind.
    + apply keeps_key_bind; [apply keeps_key_emit|intros _].
      apply keeps_key_bind; [apply keeps_key_lift|intros v].
      unfold resolve_prompt, warn.
      destruct v, (formatting_fn self); keeps_key_steps.
    + intros v. apply keeps_key_bind.
      * unfold require_list. destruct v; keeps_key_steps.
      * intros ms. apply keeps_key_retrying_call, keeps_key_create.
  - intros raw. apply keeps_key_bind; [|intros parsed; apply keeps_key_ret].
    unfold parse_choices, warn. apply keeps_key_try_except.
    + apply keeps_key_comprehension. intros c. unfold parse_choice.
      destruct (content c); keeps_key_steps.
    + intros e. keeps_key_steps.
Qed.

Lemma emits_generate (P : event -> Prop) fuel self input n :
  (forall ev, is_prompt_event ev = true -> P ev) ->
  (forall ev, is_backoff_event ev = true -> P ev) ->
  (forall t, P (EvParseOutput t)) ->
  emits P (_generate fuel self input n).
Proof.
  intros Hprompt Hbackoff Hparse.
  unfold _generate, request_completion.
  apply emits_bind.
  - apply emits_bind.
    + eapply emits_weaken; [|apply emits_prepare_prompt]. exact Hprompt.
    + intros v. apply emits_bind; [apply emits_require_list|]. intros ms.
      eapply emits_weaken; [|apply emits_backoff]. intros ev [H _]. auto.
  - intros raw. apply emits_bind; [|intros parsed; apply emits_ret].
    intros s. rewrite parse_choices_run.
    destruct (snd (parse_run self (choices raw))) as [e|ps]; cbn [snd extend trace];
      eexists; (split; [reflexivity|]).
    + apply Forall_app. split.
      * apply Forall_forall. intros ev Hin. apply in_map_iff in Hin.
        destruct Hin as (t & <- & _). apply Hparse.
      * constructor; [|constructor]. now apply Hprompt.
    + apply Forall_forall. intros ev Hin. apply in_map_iff in Hin.
      destruct Hin as (t & <- & _). apply Hparse.
Qed.

(** X12: [_generate] works on the provider through completion requests
    only: it never calls [openai.Model.list()] and never changes
    [openai.api_key], whatever the task, the formatter and the provider
    do. *)
Theorem generate_leaves_account_alone fuel self input n s :
  api_key (snd (_generate fuel self input n s)) = api_key s /\
  exists evs,
    trace (snd (_generate fuel self input n s)) = trace s ++ evs /\
    Forall (fun ev => forall key, ev <> EvModelList key) evs.
Proof.
  split; [apply keeps_key_generate|].
  apply (@emits_generate (fun ev => forall key, ev <> EvModelList key)).
  - intros [] H key; discriminate.
  - intros [] H key; discriminate.
  - intros t key; discriminate.
Qed.

(** X13: one run of [_generate] issues at most six completion requests,
    and they are all the same request: a retry resends the messages,
    model, [n], temperature and token limit of the first attempt. *)
Theorem generate_requests_bounded_and_identical fuel self input n s :
  _OPENAI_API_STOP_AFTER_ATTEMPT <= fuel ->
  completions s <= completions (snd (_generate fuel self input n s))
    <= completions s + _OPENAI_API_STOP_AFTER_ATTEMPT /\
  exists evs,
    trace (snd (_generate fuel self input n s)) = trace s ++ evs /\
    forall kw kw',
      In (EvChatCompletion kw) evs -> In (EvChatCompletion kw') evs -> kw = kw'.
Proof.
  intros Hfuel. split.
  - assert (Hd : exists d,
      completions (snd (_generate fuel self input n s)) = completions s + d /\
      d <= _OPENAI_API_STOP_AFTER_ATTEMPT).
    { unfold _generate, request_completion. unfold bind at 1 2.
      pose proof (prepare_prompt_completions self input s) as Hprep.
      destruct (prepare_prompt self input s) as [[v|e|] s1]; cbn [snd] in *;
        try (exists 0; split; lia).
      unfold bind at 1.
      assert (Hreq : snd (require_list v s1) = s1).
      { unfold require_list, bind. destruct v; trivial;
          now destruct (not_a_list_message _). }
      destruct (require_list v s1) as [[ms|e|] s2]; cbn [snd] in *; subst s2;
        try (exists 0; split; lia).
      destruct (backoff_cases_from_start (completion_kwargs self ms n) s1 Hfuel)
        as (k & Hk & _ & Hcases).
      exists (S k). unfold _OPENAI_API_STOP_AFTER_ATTEMPT.
      destruct Hcases as [(r & _ & ->)|[(e & _ & _ & ->)|(e & _ & _ & _ & ->)]];
        cbn [snd advance completions]; try (split; lia).
      unfold bind. rewrite parse_choices_run.
      destruct (snd (parse_run self (choices r)));
        cbn [snd ret extend advance completions]; split; lia. }
    destruct Hd as (d & -> & Hd). lia.
  - rewrite generate_split. unfold bind.
    destruct (emits_prepare_prompt self input s) as (evs1 & Ht1 & H1).
    assert (Hnone : forall kw, ~ In (EvChatCompletion kw) evs1).
    { intros kw Hin. rewrite Forall_forall in H1. now specialize (H1 _ Hin). }
    destruct (prepare_prompt self input s) as [[v|e|] s1]; cbn [snd] in *.
    + destruct (after_prompt_trace fuel self n v s1) as (tail & Ht & Hkw & _).
      exists (evs1 ++ tail). rewrite Ht, Ht1, app_assoc. split; [reflexivity|].
      intros kw kw' Hin Hin'.
      apply in_app_or in Hin. apply in_app_or in Hin'.
      destruct Hin as [Hin|Hin]; [now destruct (Hnone kw)|].
      destruct Hin' as [Hin'|Hin']; [now destruct (Hnone kw')|].
      destruct (Hkw _ Hin) as (ms & -> & ->).
      destruct (Hkw _ Hin') as (ms' & [= <-] & ->). reflexivity.
    + exists evs1. split; [exact Ht1|]. intros kw kw' Hin. now destruct (Hnone kw).
    + exists evs1. split; [exact Ht1|]. intros kw kw' Hin. now destruct (Hnone kw).
Qed.

(** ** [_generate]: the remaining paths *)

(** X14: a prompt that the task returns as a list goes to the provider as
    it is when no formatting function is set: no warning, no formatting
    call, and the completion request that directly follows
    [generate_prompt] carries that list as its messages, as does every
    retry. *)
Theorem generate_passes_list_prompt_through fuel self input n s messages :
  0 < fuel ->
  generate_prompt (task self) input = Returns (VList messages) ->
  formatting_fn self = None ->
  exists tail,
    trace (snd (_generate fuel self input n s)) =
      trace s ++ [EvGeneratePrompt input;
                  EvChatCompletion (completion_kwargs self messages n)]
              ++ tail /\
    forall kw, In (EvChatCompletion kw) tail ->
               kw = completion_kwargs self messages n.
Proof.
  intros Hfuel Hgp Hfn.
  assert (Hrun : _generate fuel self input n s =
                 after_prompt fuel self n (VList messages)
                              (extend s [EvGeneratePrompt input])).
  { rewrite generate_split.
    unfold prepare_prompt, resolve_prompt. unfold bind at 1 2 3, emit.
    rewrite Hgp, Hfn. reflexivity. }
  rewrite Hrun.
  destruct (after_prompt_trace fuel self n (VList messages)
              (extend s [EvGeneratePrompt input]))
    as (tail & Ht & Hkw & Hfirst).
  destruct (Hfirst messages Hfuel eq_refl) as (tail' & ->).
  exists tail'. rewrite Ht. cbn [extend trace]. rewrite <- app_assoc.
  split; [reflexivity|].
  intros kw Hin. destruct (Hkw kw (or_intror Hin)) as (ms & [= <-] & ->).
  reflexivity.
Qed.

(** X15: an exception raised by the task's [generate_prompt], by the
    prompt's [format_as] or by the formatting function leaves [_generate]
    unchanged, and no completion request has been issued by then. *)
Theorem generate_collaborator_error_propagates fuel self input n s e :
  generate_prompt (task self) input = Raises e \/
  (exists p, generate_prompt (task self) input = Returns (VPrompt p) /\
             formatting_fn self = None /\
             format_as w p "openai" = Raises e) \/
  (exists v fn, generate_prompt (task self) input = Returns v /\
                isinstance_Prompt v = false /\
                formatting_fn self = Some fn /\
                fn v = Raises e) ->
  fst (_generate fuel self input n s) = Raise e /\
  completions (snd (_generate fuel self input n s)) = completions s /\
  exists evs,
    trace (snd (_generate fuel self input n s)) = trace s ++ evs /\
    Forall (fun ev => is_network_call ev = false) evs.
Proof.
  intros H.
  assert (Hprep : fst (prepare_prompt self input s) = Raise e).
  { unfold prepare_prompt, resolve_prompt, warn. unfold bind, emit.
    destruct H as [Hgp|[(p & Hgp & Hfn & Hfa)|(v & fn & Hgp & Hv & Hfn & Hf)]];
      rewrite Hgp; cbn [lift ret raise fst]; trivial.
    - rewrite Hfn. cbn. now rewrite Hfa.
    - rewrite Hfn. destruct v; try discriminate; cbn; now rewrite Hf. }
  pose proof (prepare_prompt_completions self input s) as Hc.
  destruct (emits_prepare_prompt self input s) as (evs & Ht & Hevs).
  rewrite generate_split. unfold bind.
  destruct (prepare_prompt self input s) as [[v|e'|] s1]; cbn [fst snd] in *;
    try discriminate.
  injection Hprep as ->. split; [reflexivity|]. split; [exact Hc|].
  exists evs. split; [exact Ht|].
  eapply Forall_impl; [|exact Hevs]. now intros [] Hev.
Qed.

(** X16: once the completion has returned, [_generate] returns: whatever
    happens while the choices are parsed, the caller gets the raw response
    and a list, never an exception, and the parse stage adds only parser
    calls and at most one warning to the trace. *)
Theorem generate_returns_once_completed fuel self input n s raw s1 :
  request_completion fuel self input n s = (Ok raw, s1) ->
  exists parsed texts warnings,
    _generate fuel self input n s =
      (Ok (to_dict_recursive raw, parsed),
       extend s1 (map EvParseOutput texts ++ map EvWarn warnings)) /\
    List.length warnings <= 1 /\
    (warnings = [] \/ parsed = []).
Proof.
  intros Hreq. rewrite (@generate_after_request _ _ _ _ _ _ _ Hreq).
  destruct (snd (parse_run self (choices raw))) as [e|ps].
  - exists [], (fst (parse_run self (choices raw))), [parse_error_warning e].
    repeat split; cbn; auto.
  - exists ps, (fst (parse_run self (choices raw))), [].
    cbn [map]. rewrite app_nil_r. repeat split; cbn; auto.
Qed.

(** X17: when the prompt is in order and the endpoint fails with a
    retried error kind on all six attempts, [_generate] itself raises the
    [RetryError] around the sixth error: six requests have been sent,
    nothing is parsed, no warning is emitted and no empty result stands in
    for the failure. *)
Theorem generate_raises_after_six_failures
    fuel self input n s messages s0 e :
  _OPENAI_API_STOP_AFTER_ATTEMPT <= fuel ->
  prepare_prompt self input s = (Ok (VList messages), s0) ->
  (forall i, i < 5 ->
     transient_at (completion_kwargs self messages n) (completions s0 + i)) ->
  ChatCompletion_create w (completions s0 + 5)
    (completion_kwargs self messages n) = Raises e ->
  isinstance e _OPENAI_API_RETRY_ON_EXCEPTIONS = true ->
  _generate fuel self input n s =
    (Raise (RetryError e),
     advance s0
       (flat_map (failed_attempt_events (completion_kwargs self messages n))
                 (seq 1 5)
        ++ [EvChatCompletion (completion_kwargs self messages n);
            EvAfterLog 6]) 6).
Proof.
  unfold _OPENAI_API_STOP_AFTER_ATTEMPT. intros Hfuel Hprep Htr He Hin.
  unfold _generate, request_completion. unfold bind at 1 2.
  rewrite Hprep. cbn [require_list]. unfold bind at 1, ret at 1.
  unfold _chat_completion_with_backoff.
  rewrite (@retry_exhausts (completion_kwargs self messages n) e 5 fuel 1 s0);
    trivial; lia.
Qed.

(** The choice [c] is parsed to [p]. *)
Definition parses_to (self : OpenAILLM) (c : choice) (p : Parsed) : Prop :=
  exists text, content c = Some text /\
               parse_output (task self) (strip text) = Returns p.

(** The stripped contents of the choices that have one. *)
Fixpoint stripped_texts (cs : list choice) : list pystr :=
  match cs with
  | c :: cs' =>
      match content c with
      | Some text => strip text :: stripped_texts cs'
      | None => stripped_texts cs'
      end
  | [] => []
  end.

Lemma stripped_texts_app cs cs' :
  stripped_texts (cs ++ cs') = stripped_texts cs ++ stripped_texts cs'.
Proof.
  induction cs as [|c cs IH]; [reflexivity|].
  cbn. destruct (content c); cbn; now rewrite IH.
Qed.

Lemma parse_run_success self cs ps :
  Forall2 (parses_to self) cs ps ->
  parse_run self cs = (stripped_texts cs, inr ps).
Proof.
  induction 1 as [|c p cs ps (text & Hc & Hp) _ IH]; [reflexivity|].
  cbn [parse_run stripped_texts]. now rewrite Hc, Hp, IH.
Qed.

Lemma parse_run_first_failure self pre ps c post e :
  Forall2 (parses_to self) pre ps ->
  choice_raises self c e ->
  parse_run self (pre ++ c :: post) = (stripped_texts (pre ++ [c]), inl e).
Proof.
  intros Hpre Hc. induction Hpre as [|c0 p pre ps (text & Hc0 & Hp) _ IH].
  - cbn [app parse_run stripped_texts]. unfold choice_raises in Hc.
    destruct (content c) as [text|]; [now rewrite Hc|now subst e].
  - cbn [app parse_run stripped_texts]. now rewrite Hc0, Hp, IH.
Qed.

(** X18: when every choice has a content on which the task's parser
    returns, [_generate] returns one parsed output per choice, in the
    order of the choices, each being the parser's result on the stripped
    content, and emits no warning. *)
Theorem generate_parses_every_choice fuel self input n s raw s1 ps :
  request_completion fuel self input n s = (Ok raw, s1) ->
  Forall2 (parses_to self) (choices raw) ps ->
  _generate fuel self input n s =
    (Ok (to_dict_recursive raw, ps),
     extend s1 (map EvParseOutput (stripped_texts (choices raw)))) /\
  List.length ps = List.length (choices raw).
Proof.
  intros Hreq Hall. split.
  - rewrite (@generate_after_request _ _ _ _ _ _ _ Hreq).
    now rewrite (parse_run_success Hall).
  - symmetry. eapply Forall2_length; eauto.
Qed.

(** X19: the first choice that cannot be parsed - because it has no
    content or because the parser raises on it - decides the result: the
    outputs already parsed are dropped, the choices after it are never
    handed to the parser, and the single warning carries the [str()] of
    that choice's exception. *)
Theorem generate_stops_at_first_failure
    fuel self input n s raw s1 pre ps c post e :
  request_completion fuel self input n s = (Ok raw, s1) ->
  choices raw = pre ++ c :: post ->
  Forall2 (parses_to self) pre ps ->
  choice_raises self c e ->
  _generate fuel self input n s =
    (Ok (to_dict_recursive raw, []),
     extend s1 (map EvParseOutput (stripped_texts (pre ++ [c]))
                ++ [EvWarn ("Error parsing OpenAI response: " ++ exc_str e)])).
Proof.
  intros Hreq Hchoices Hpre Hc.
  rewrite (@generate_after_request _ _ _ _ _ _ _ Hreq), Hchoices.
  now rewrite (@parse_run_first_failure self pre ps c post e Hpre Hc).
Qed.

(** ** [str.strip] on the content *)

Lemma lstrip_fixed s :
  (forall c, hd_error s = Some c -> py_isspace c = false) -> lstrip s = s.
Proof.
  destruct s as [|c s]; [reflexivity|]. intros H. cbn.
  now rewrite (H c eq_refl).
Qed.

Lemma lstrip_blank s : forallb py_isspace s = true -> lstrip s = [].
Proof.
  induction s as [|c s IH]; [reflexivity|]. cbn.
  intros H. apply andb_prop in H. destruct H as [-> H]. now apply IH.
Qed.

(** X20: the text handed to the parser is the content with a run of
    whitespace cut off each end and nothing else changed; stripping it
    again changes nothing, and a content of whitespace only reaches the
    parser as the empty string. *)
Theorem strip_trims_only_the_ends s :
  (exists l r, s = l ++ strip s ++ r /\
               forallb py_isspace l = true /\ forallb py_isspace r = true) /\
  strip (strip s) = strip s /\
  (forallb py_isspace s = true -> strip s = []).
Proof.
  split; [apply strip_spec|]. split.
  - destruct (strip_spec s) as [_ [Hhead Hlast]].
    unfold strip at 1, rstrip.
    rewrite (lstrip_fixed _ Hhead), (lstrip_fixed _ Hlast).
    apply rev_involutive.
  - intros H. unfold strip, rstrip. now rewrite (lstrip_blank _ H).
Qed.

(** ** Which texts reach the parser *)

(** [t] is [s] with whitespace cut off both ends: [s] is [t] between two
    runs of whitespace, and [t] neither starts nor ends with whitespace. *)
Definition trimmed_of (s t : pystr) : Prop :=
  (exists l r, s = l ++ t ++ r /\
               forallb py_isspace l = true /\ forallb py_isspace r = true) /\
  no_surrounding_whitespace t.

(** The choice [c] has a content, and [t] is that content trimmed. *)
Definition passed_as (c : choice) (t : pystr) : Prop :=
  exists text, content c = Some text /\ trimmed_of text t.

(** The choices the parser gets to see when [c] is the first one that
    fails, after the choices [pre]: those of [pre], and [c] itself unless
    it has no content to strip. *)
Definition seen_until (pre : list choice) (c : choice) : list choice :=
  pre ++ match content c with
         | Some _ => [c]
         | None => []
         end.

Lemma lstrip_app_blank l u :
  forallb py_isspace l = true -> lstrip (l ++ u) = lstrip u.
Proof.
  induction l as [|c l IH]; [reflexivity|]. cbn.
  intros H. apply andb_prop in H. destruct H as [-> H]. now apply IH.
Qed.

(** Trimming has one result only, and [strip] computes it. *)
Lemma trimmed_of_strip s t : trimmed_of s t <-> t = strip s.
Proof.
  split; [|intros ->; apply strip_spec].
  intros [(l & r & -> & Hl & Hr) [Hhead Hlast]].
  unfold strip, rstrip. rewrite lstrip_app_blank by exact Hl.
  destruct t as [|c t].
  - cbn [app].
    replace (lstrip r) with (@nil N) by (symmetry; now apply lstrip_blank).
    reflexivity.
  - assert (Hfront : lstrip ((c :: t) ++ r) = (c :: t) ++ r).
    { apply lstrip_fixed. intros d [= <-]. now apply Hhead. }
    rewrite Hfront, rev_app_distr.
    rewrite lstrip_app_blank by now rewrite forallb_rev.
    rewrite lstrip_fixed by exact Hlast. now rewrite rev_involutive.
Qed.

Lemma parsed_choices_passed self cs ps :
  Forall2 (parses_to self) cs ps ->
  Forall2 passed_as cs (stripped_texts cs).
Proof.
  induction 1 as [|c p cs ps (text & Hc & Hp) _ IH]; [constructor|].
  cbn [stripped_texts]. rewrite Hc. constructor; [|exact IH].
  exists text. split; [exact Hc|apply strip_spec].
Qed.

Lemma seen_until_passed self pre ps c :
  Forall2 (parses_to self) pre ps ->
  Forall2 passed_as (seen_until pre c) (stripped_texts (pre ++ [c])).
Proof.
  intros Hpre. unfold seen_until. rewrite stripped_texts_app.
  apply Forall2_app; [now apply parsed_choices_passed with (self := self) (ps := ps)|].
  cbn [stripped_texts]. destruct (content c) as [text|] eqn:Hc; [|constructor].
  constructor; [|constructor].
  exists text. split; [exact Hc|apply strip_spec].
Qed.

(** Either every choice is parsed, or there is a first one that is not. *)
Lemma parse_outcome_cases self cs :
  (exists ps, Forall2 (parses_to self) cs ps) \/
  (exists pre ps c post e,
      cs = pre ++ c :: post /\
      Forall2 (parses_to self) pre ps /\
      choice_raises self c e).
Proof.
  induction cs as [|c cs IH].
  - left. exists []. constructor.
  - destruct (content c) as [text|] eqn:Hc.
    + destruct (parse_output (task self) (strip text)) as [p|e] eqn:Hp.
      * destruct IH as [(ps & Hall)|(pre & ps & c' & post & e & -> & Hpre & Hc')].
        -- left. exists (p :: ps). constructor; [now exists text|exact Hall].
        -- right. exists (c :: pre), (p :: ps), c', post, e.
           repeat split; trivial. constructor; [now exists text|exact Hpre].
      * right. exists [], [], c, cs, e. repeat split; [constructor|].
        unfold choice_raises. now rewrite Hc.
    + right. exists [], [], c, cs,
        (Exc AttributeError "'NoneType' object has no attribute 'strip'").
      repeat split; [constructor|]. unfold choice_raises. now rewrite Hc.
Qed.

(** C10 (as amended): once the completion has returned, [_generate] calls
    [task.parse_output] on the choices in order, each time with the
    choice's content trimmed of leading and trailing whitespace: on every
    choice when each of them is parsed, and otherwise on the choices up
    to the first one that fails - that one included when the parser
    raised on it, not when it has no content - and on none after it.
    Without a raw response the parser is not called at all. *)
Theorem generate_passes_trimmed_contents_until_failure fuel self input n s :
  (forall raw s1,
      request_completion fuel self input n s = (Ok raw, s1) ->
      exists seen texts,
        parse_texts (trace (snd (_generate fuel self input n s))) =
          parse_texts (trace s) ++ texts /\
        Forall2 passed_as seen texts /\
        ((seen = choices raw /\
          exists ps, Forall2 (parses_to self) (choices raw) ps)
         \/
         (exists pre ps c post e,
             choices raw = pre ++ c :: post /\
             Forall2 (parses_to self) pre ps /\
             choice_raises self c e /\
             seen = seen_until pre c))) /\
  ((forall raw, fst (request_completion fuel self input n s) <> Ok raw) ->
   parse_texts (trace (snd (_generate fuel self input n s))) =
     parse_texts (trace s)).
Proof.
  destruct (emits_request_completion fuel self input n s) as (evs & Htr & Hevs).
  split.
  - intros raw s1 Hreq. rewrite Hreq in Htr. cbn [snd] in Htr.
    rewrite (@generate_after_request _ _ _ _ _ _ _ Hreq).
    destruct (parse_outcome_cases self (choices raw))
      as [(ps & Hall)|(pre & ps & c & post & e & Hdec & Hpre & Hc)].
    + exists (choices raw), (stripped_texts (choices raw)).
      rewrite (parse_run_success Hall). cbn [fst snd extend trace].
      rewrite Htr, !parse_texts_app, parse_texts_map, (parse_texts_other Hevs).
      rewrite app_nil_r.
      split; [reflexivity|]. split; [now apply parsed_choices_passed with (self := self) (ps := ps)|].
      left. split; [reflexivity|now exists ps].
    + exists (seen_until pre c), (stripped_texts (pre ++ [c])).
      rewrite Hdec, (@parse_run_first_failure self pre ps c post e Hpre Hc).
      cbn [fst snd extend trace].
      rewrite Htr, !parse_texts_app, parse_texts_map, (parse_texts_other Hevs).
      cbn [parse_texts]. rewrite !app_nil_r.
      split; [reflexivity|]. split; [now apply seen_until_passed with (self := self) (ps := ps)|].
      right. exists pre, ps, c, post, e. now repeat split.
  - intros Hno.
    destruct (@generate_without_response fuel self input n s Hno) as [-> _].
    rewrite Htr, parse_texts_app, (parse_texts_other Hevs). apply app_nil_r.
Qed.

End Adapter.

Arguments VPrompt {Prompt Item} p.
Arguments VList {Prompt Item} items.
Arguments VStr {Prompt Item} s.
Arguments VNone {Prompt Item}.
Arguments VObject {Prompt Item} type_name.
Arguments EvModelList {Input Prompt Item Float} api_key.
Arguments EvChatCompletion {Input Prompt Item Float} kwargs.
Arguments EvAfterLog {Input Prompt Item Float} attempt_number.
Arguments EvBeforeSleepLog {Input Prompt Item Float} attempt_number.
Arguments EvSleep {Input Prompt Item Float} attempt_number.
Arguments EvGeneratePrompt {Input Prompt Item Float} input.
Arguments EvFormattingFn {Input Prompt Item Float} arg.
Arguments EvFormatAs {Input Prompt Item Float} p format.
Arguments EvParseOutput {Input Prompt Item Float} text.
Arguments EvWarn {Input Prompt Item Float} message.
Arguments initial_state {Input Prompt Item Float}.
Arguments Ok {A} a.
Arguments Raise {A} e.
Arguments OutOfFuel {A}.

(** * A concrete task and provider *)

Module Scenario.

(** A turn is a role and a content; a [Prompt] is a system prompt and a
    formatted prompt; the task's parsed output is the text itself. *)
Definition turn : Type := string * string.
Definition prompt : Type := string * string.

Definition show (v : value prompt turn) : string :=
  match v with
  | VPrompt p => "Prompt(" ++ fst p ++ ", " ++ snd p ++ ")"
  | VList _ => "[...]"
  | VStr _ => "..."
  | VNone => "None"
  | VObject n => "<" ++ n ++ " object>"
  end.

Definition no_other_spec (s spec : string) : outcome string := Returns s.

Definition messages_of (p : prompt) : list turn :=
  [("system", fst p); ("user", snd p)].

Definition rate_text : value prompt turn := VStr [82; 97; 116; 101]%N.

(** A task whose prompt is a [Prompt] for the input ["structured"], the
    string itself for ["text"], and a ready list of turns otherwise; its
    parser rejects the empty text. *)
Definition rating_task : Task string prompt turn pystr := {|
  generate_prompt := fun input =>
    if String.eqb input "structured"
    then Returns (VPrompt ("You are a rater.", "Rate this."))
    else if String.eqb input "text"
    then Returns rate_text
    else Returns (VList [("user", input)]);
  parse_output := fun text =>
    match text with
    | [] => Raises (Exc ValueError "empty output")
    | _ => Returns text
    end
|}.

Definition rate_limited : exc := Exc RateLimitError "Rate limit reached".
Definition invalid_request : exc :=
  Exc (OtherError "InvalidRequestError") "Unrecognized request argument".

(** Three choices: padded text, whitespace only, plain text. *)
Definition three_choices : response := {|
  choices := [ {| content := Some [32; 52; 10]%N |};
               {| content := Some [32; 9; 32]%N |};
               {| content := Some [53]%N |} ]
|}.

Definition two_choices : response := {|
  choices := [ {| content := Some [32; 52; 10]%N |};
               {| content := Some [53; 32]%N |} ]
|}.

Definition account_models : option (list (option string)) :=
  Some [Some "gpt-3.5-turbo"; None; Some "gpt-4"].

(** A provider described by its completion endpoint; no key in the
    environment, and [format_as] yields the two turns of the prompt. *)
Definition provider (endpoint : nat -> outcome response)
    : World prompt turn string := {|
  environ_get := fun _ => None;
  Model_list := fun _ => Returns account_models;
  ChatCompletion_create := fun i _ => endpoint i;
  format_as := fun p _ => Returns (VList (messages_of p))
|}.

(** Two rate-limit errors, then a response. *)
Definition flaky : World prompt turn string :=
  provider (fun i => if (i <? 2)%nat then Raises rate_limited
                     else Returns two_choices).

(** Rate-limit errors for ever. *)
Definition down : World prompt turn string :=
  provider (fun _ => Raises rate_limited).

(** A request the provider rejects. *)
Definition rejecting : World prompt turn string :=
  provider (fun _ => Raises invalid_request).

Definition answering (r : response) : World prompt turn string :=
  provider (fun _ => Returns r).

Definition adapter (fn : option (value prompt turn -> outcome (value prompt turn)))
    : OpenAILLM string prompt turn pystr string := {|
  task := rating_task;
  model := "gpt-3.5-turbo";
  max_new_tokens := 128;
  temperature := "0.7";
  num_threads := None;
  formatting_fn := fn;
  available_models_cache := Some ["gpt-3.5-turbo"; "gpt-4"]
|}.

Definition as_user_turn (v : value prompt turn) : outcome (value prompt turn) :=
  match v with
  | VPrompt p => Returns (VList (messages_of p))
  | VStr _ => Returns (VList [("user", "Rate")])
  | other => Returns other
  end.

Definition kwargs0 : request turn string :=
  completion_kwargs (adapter None) [("user", "hello")] 1.

Definition start : state string prompt turn string := initial_state.

(** ** The definitions on small inputs *)

Example strip_both_ends :
  strip [32; 9; 104; 105; 32; 10; 160]%N = [104; 105]%N.
Proof. reflexivity. Qed.

Example strip_keeps_inner_space :
  strip [10; 97; 32; 98; 13]%N = [97; 32; 98]%N.
Proof. reflexivity. Qed.

Example py_or_prefers_argument :
  py_or (Some "sk-arg") (Some "sk-env") = Some "sk-arg" /\
  py_or (Some "") (Some "sk-env") = Some "sk-env" /\
  py_or None (Some "sk-env") = Some "sk-env" /\
  py_or None None = None.
Proof. repeat split. Qed.

Example format_specs :
  format_spec_missing_precision " ..., 'content': ..." = true /\
  format_spec_missing_precision "." = true /\
  format_spec_missing_precision ".3" = false /\
  format_spec_missing_precision ">10" = false.
Proof. repeat split. Qed.

Example init_with_key_and_model :
  fst (__init__ (answering two_choices) rating_task "gpt-4" (Some "sk-1")
                128 "0.7" None None start)
  = Ok {| task := rating_task; model := "gpt-4"; max_new_tokens := 128;
          temperature := "0.7"; num_threads := None; formatting_fn := None;
          available_models_cache := Some ["gpt-3.5-turbo"; "gpt-4"] |}.
Proof. reflexivity. Qed.

Example init_with_unknown_model :
  fst (__init__ (answering two_choices) rating_task "gpt-5" (Some "sk-1")
                128 "0.7" None None start)
  = Raise (Exc AssertionError
      "Provided `model` is not available in your OpenAI account, available models are ['gpt-3.5-turbo', 'gpt-4']").
Proof. reflexivity. Qed.

(** ** The statements at this task and provider *)

(** No key anywhere, and an account that has the model: the model listing
    is fetched, then the assertion on the key fails. *)
Lemma init_without_credential_witness :
  __init__ (answering two_choices) rating_task "gpt-3.5-turbo" None
           128 "0.7" None None start
  = (Raise (Exc AssertionError missing_api_key_message),
     {| trace := [EvModelList None]; api_key := None; completions := 0 |}).
Proof.
  exact (init_without_credential_lists_models_first
           (answering two_choices) rating_task "gpt-3.5-turbo"
           128 "0.7" None None start eq_refl).
Defined.

(** Two rate-limit errors are absorbed; six in a row end in [RetryError]. *)
Lemma backoff_absorbs_then_gives_up_witness :
  fst (_chat_completion_with_backoff flaky 6 kwargs0 start) = Ok two_choices /\
  completions (snd (_chat_completion_with_backoff flaky 6 kwargs0 start)) = 3 /\
  fst (_chat_completion_with_backoff down 6 kwargs0 start)
    = Raise (RetryError rate_limited) /\
  completions (snd (_chat_completion_with_backoff down 6 kwargs0 start)) = 6.
Proof.
  destruct (backoff_absorbs_then_gives_up flaky kwargs0 start (le_n 6))
    as [Habsorb _].
  destruct (backoff_absorbs_then_gives_up down kwargs0 start (le_n 6))
    as [_ Hgive_up].
  rewrite (Habsorb 2 two_choices).
  - rewrite (Hgive_up rate_limited).
    + repeat split.
    + intros i Hi. exists rate_limited. split; reflexivity.
    + reflexivity.
    + reflexivity.
  - lia.
  - intros i Hi. exists rate_limited.
    destruct i as [|[|i]]; [split; reflexivity ..|lia].
  - reflexivity.
Defined.

(** C2 as stated fails: after six rate-limit errors in a row the caller
    does not get the last rate-limit error but a [RetryError]. *)
Lemma backoff_exhausted_raises_RetryError :
  ChatCompletion_create down = (fun _ _ => Raises rate_limited) /\
  isinstance rate_limited _OPENAI_API_RETRY_ON_EXCEPTIONS = true /\
  fst (_chat_completion_with_backoff down 6 kwargs0 start)
    = Raise (RetryError rate_limited) /\
  fst (_chat_completion_with_backoff down 6 kwargs0 start)
    <> Raise rate_limited.
Proof. repeat split. discriminate. Qed.

Lemma backoff_other_error_immediate_witness :
  _chat_completion_with_backoff rejecting 6 kwargs0 start
  = (Raise invalid_request,
     {| trace := [EvChatCompletion kwargs0]; api_key := None;
        completions := 1 |}).
Proof.
  apply (backoff_other_error_immediate rejecting kwargs0 start (fuel := 6)).
  - lia.
  - reflexivity.
  - reflexivity.
Defined.

(** The second of three choices is blank, so the parser raises on it:
    nothing is parsed, the third choice is never looked at. *)
Lemma generate_parse_failure_witness :
  exists e' c' texts,
    In c' (choices three_choices) /\
    choice_raises (adapter None) c' e' /\
    _generate show (answering three_choices) no_other_spec 6
              (adapter None) "hello" 3 start
    = (Ok (three_choices, []),
       {| trace :=
            [EvGeneratePrompt "hello";
             EvChatCompletion
               (completion_kwargs (adapter None) [("user", "hello")] 3)]
            ++ map EvParseOutput texts
            ++ [EvWarn ("Error parsing OpenAI response: " ++ exc_str e')];
          api_key := None; completions := 1 |}).
Proof.
  destruct (generate_parse_failure_empties_parsed
              show (answering three_choices) no_other_spec 6 (adapter None)
              "hello" 3 start
              (raw := three_choices)
              {| content := Some [32; 9; 32]%N |}
              (text := [32; 9; 32]%N)
              (e := Exc ValueError "empty output")
              eq_refl (or_intror (or_introl eq_refl)) eq_refl eq_refl)
    as (e' & c' & texts & Hin & Hraises & Hrun).
  exists e', c', texts. repeat split; trivial.
Defined.

Lemma generate_Prompt_with_formatting_fn_witness :
  _generate show (answering two_choices) no_other_spec 6
            (adapter (Some as_user_turn)) "structured" 2 start
  = (Raise (Exc ValueError "Format specifier missing precision"),
     {| trace := [EvGeneratePrompt "structured"]; api_key := None;
        completions := 0 |}).
Proof.
  exact (generate_Prompt_with_formatting_fn_raises
           show (answering two_choices) no_other_spec 6
           (adapter (Some as_user_turn)) "structured" 2 start
           (p := ("You are a rater.", "Rate this.")) (fn := as_user_turn)
           eq_refl eq_refl).
Defined.

Lemma generate_parsed_at_most_choices_witness :
  fst (_generate show (answering two_choices) no_other_spec 6
                 (adapter None) "hello" 2 start)
    = Ok (two_choices, [[52]; [53]]%N) /\
  List.length [[52]; [53]]%N <= List.length (choices two_choices).
Proof.
  split; [reflexivity|].
  apply (generate_parsed_at_most_choices
           show (answering two_choices) no_other_spec 6 (adapter None)
           "hello" 2 start
           (s' := snd (_generate show (answering two_choices) no_other_spec 6
                                 (adapter None) "hello" 2 start))).
  reflexivity.
Defined.

Lemma generate_converts_Prompt_witness :
  exists tail',
    trace (snd (_generate show (answering two_choices) no_other_spec 6
                          (adapter None) "structured" 2 start))
    = [EvGeneratePrompt "structured";
       EvFormatAs ("You are a rater.", "Rate this.") "openai";
       EvChatCompletion
         (completion_kwargs (adapter None)
            [("system", "You are a rater."); ("user", "Rate this.")] 2)]
      ++ tail'.
Proof.
  destruct (generate_converts_Prompt_for_openai
              show (answering two_choices) no_other_spec 6 (adapter None)
              "structured" 2 start
              (p := ("You are a rater.", "Rate this.")) eq_refl eq_refl)
    as (tail & Htrace & _ & Hfirst).
  destruct (Hfirst [("system", "You are a rater."); ("user", "Rate this.")])
    as (tail' & ->); [lia|reflexivity|].
  exists tail'. exact Htrace.
Defined.

Lemma generate_warns_then_formats_witness :
  exists tail',
    trace (snd (_generate show (answering two_choices) no_other_spec 6
                          (adapter (Some as_user_turn)) "text" 2 start))
    = [EvGeneratePrompt "text";
       EvWarn (preformatted_warning rate_text);
       EvFormattingFn rate_text;
       EvChatCompletion
         (completion_kwargs (adapter (Some as_user_turn)) [("user", "Rate")] 2)]
      ++ tail'.
Proof.
  destruct (generate_warns_then_formats
              show (answering two_choices) no_other_spec 6
              (adapter (Some as_user_turn)) "text" 2 start
              (v := VStr [82; 97; 116; 101]%N) (fn := as_user_turn)
              eq_refl eq_refl eq_refl)
    as (tail & Htrace & _ & Hfirst).
  destruct (Hfirst [("user", "Rate")]) as (tail' & ->); [lia|reflexivity|].
  exists tail'. exact Htrace.
Defined.

(** A task that hands back a bare string, and no formatting function. *)
Lemma generate_non_list_prompt_witness :
  _generate show (answering two_choices) no_other_spec 6
            (adapter None) "text" 2 start
  = (Raise (Exc ValueError "Format specifier missing precision"),
     {| trace := [EvGeneratePrompt "text"]; api_key := None;
        completions := 0 |}) /\
  is_substring "<class 'str'>" "Format specifier missing precision" = false.
Proof.
  split; [|reflexivity].
  exact (proj1 (generate_non_list_prompt_raises
                  show (answering two_choices) no_other_spec 6 (adapter None)
                  "text" 2 start
                  (v := VStr [82; 97; 116; 101]%N)
                  (s1 := {| trace := [EvGeneratePrompt "text"];
                            api_key := None; completions := 0 |})
                  eq_refl eq_refl)).
Defined.

End Scenario.

(** * Further runs of the concrete task and provider *)

Module Runs.
Import Scenario.

(** A provider with the given environment entry for [OPENAI_API_KEY] and
    the given behaviour of the model listing. *)
Definition account (env : option string)
    (listing : option string -> outcome (option (list (option string))))
    (endpoint : nat -> outcome response) : World prompt turn string := {|
  environ_get := fun name =>
    if String.eqb name "OPENAI_API_KEY" then env else None;
  Model_list := listing;
  ChatCompletion_create := fun i _ => endpoint i;
  format_as := fun p _ => Returns (VList (messages_of p))
|}.

Definition lists_models (key : option string)
    : outcome (option (list (option string))) :=
  Returns account_models.

Definition authentication_error : exc :=
  Exc (OtherError "AuthenticationError") "No API key provided.".

(** A listing that insists on a key. *)
Definition needs_key (key : option string)
    : outcome (option (list (option string))) :=
  match key with
  | Some _ => Returns account_models
  | None => Raises authentication_error
  end.

Definition always (r : response) (i : nat) : outcome response := Returns r.

(** Two rate-limit errors, then a request the provider rejects. *)
Definition flaky_then_rejecting : World prompt turn string :=
  provider (fun i => if (i <? 2)%nat then Raises rate_limited
                     else Raises invalid_request).

Definition refusing_formatter (v : value prompt turn)
    : outcome (value prompt turn) :=
  Raises (Exc ValueError "cannot format").

Definition fresh_adapter : OpenAILLM string prompt turn pystr string := {|
  task := rating_task;
  model := "gpt-3.5-turbo";
  max_new_tokens := 128;
  temperature := "0.7";
  num_threads := None;
  formatting_fn := None;
  available_models_cache := None
|}.

Definition padded : choice := {| content := Some [32; 52; 10]%N |}.
Definition blank : choice := {| content := Some [32; 9; 32]%N |}.
Definition plain : choice := {| content := Some [53]%N |}.

Lemma backoff_call_bounds_witness :
  exists evs,
    trace (snd (_chat_completion_with_backoff flaky 6 kwargs0 start))
      = trace start ++ evs /\
    completions (snd (_chat_completion_with_backoff flaky 6 kwargs0 start))
      = completions start + completion_calls evs /\
    1 <= completion_calls evs <= 6 /\
    sleeps evs + 1 = completion_calls evs /\
    api_key (snd (_chat_completion_with_backoff flaky 6 kwargs0 start))
      = api_key start.
Proof. exact (backoff_call_bounds flaky kwargs0 start (le_n 6)). Defined.

Lemma backoff_never_raises_transient_witness :
  isinstance (RetryError rate_limited) _OPENAI_API_RETRY_ON_EXCEPTIONS = false.
Proof.
  exact (backoff_never_raises_transient down kwargs0 start
           (e := RetryError rate_limited) (le_n 6) eq_refl).
Defined.

Lemma backoff_other_error_after_retries_witness :
  fst (_chat_completion_with_backoff flaky_then_rejecting 6 kwargs0 start)
    = Raise invalid_request /\
  completions
    (snd (_chat_completion_with_backoff flaky_then_rejecting 6 kwargs0 start))
    = 3.
Proof.
  rewrite (backoff_other_error_after_retries
             (w := flaky_then_rejecting) (kwargs := kwargs0) start
             (fuel := 6) (k := 2) (e := invalid_request)).
  - split; reflexivity.
  - apply le_n.
  - lia.
  - intros i Hi. exists rate_limited.
    destruct i as [|[|i]]; [split; reflexivity ..|lia].
  - reflexivity.
  - reflexivity.
Defined.

Lemma backoff_returns_last_response_witness :
  exists k,
    k < 6 /\
    completions (snd (_chat_completion_with_backoff flaky 6 kwargs0 start))
      = completions start + S k /\
    ChatCompletion_create flaky (completions start + k) kwargs0
      = Returns two_choices /\
    forall i, i < k -> transient_at flaky kwargs0 (completions start + i).
Proof.
  exact (backoff_returns_last_response flaky kwargs0 start
           (r := two_choices) (le_n 6) eq_refl).
Defined.

(** The argument wins over the environment. *)
Lemma init_succeeds_witness :
  snd (__init__ (account (Some "sk-env") lists_models (always two_choices))
                rating_task "gpt-4" (Some "sk-arg") 128 "0.7" None None start)
  = {| trace := [EvModelList (Some "sk-arg")]; api_key := Some "sk-arg";
       completions := 0 |}.
Proof.
  exact (f_equal snd
           (init_succeeds
              (account (Some "sk-env") lists_models (always two_choices))
              rating_task "gpt-4" (Some "sk-arg") 128 "0.7" None None start
              (k := "sk-arg") (listing := account_models)
              eq_refl eq_refl eq_refl)).
Defined.

Lemma init_model_not_available_witness :
  fst (__init__ (account (Some "sk-env") lists_models (always two_choices))
                rating_task "gpt-5" None 128 "0.7" None None start)
  = Raise (Exc AssertionError
      "Provided `model` is not available in your OpenAI account, available models are ['gpt-3.5-turbo', 'gpt-4']").
Proof.
  exact (f_equal fst
           (proj1 (init_model_not_available
                     (account (Some "sk-env") lists_models (always two_choices))
                     rating_task "gpt-5" None 128 "0.7" None None start
                     (listing := account_models) eq_refl eq_refl))).
Defined.

Lemma init_listing_error_propagates_witness :
  fst (__init__ (account None needs_key (always two_choices))
                rating_task "gpt-4" None 128 "0.7" None None start)
  = Raise authentication_error.
Proof.
  exact (f_equal fst
           (init_listing_error_propagates
              (account None needs_key (always two_choices))
              rating_task "gpt-4" None 128 "0.7" None None start
              (e := authentication_error) eq_refl)).
Defined.

Lemma init_accepts_empty_environment_key_witness :
  exists self,
    __init__ (account (Some "") needs_key (always two_choices))
             rating_task "gpt-4" None 128 "0.7" None None start
    = (Ok self,
       {| trace := [EvModelList (Some "")]; api_key := Some "";
          completions := 0 |}) /\
    model self = "gpt-4".
Proof.
  exact (init_accepts_empty_environment_key
           (account (Some "") needs_key (always two_choices))
           rating_task "gpt-4" (openai_api_key := None) 128 "0.7" None None
           start (listing := account_models)
           (or_introl eq_refl) eq_refl eq_refl eq_refl).
Defined.

Definition listed_adapter : OpenAILLM string prompt turn pystr string := {|
  task := rating_task;
  model := "gpt-3.5-turbo";
  max_new_tokens := 128;
  temperature := "0.7";
  num_threads := None;
  formatting_fn := None;
  available_models_cache := Some ["gpt-3.5-turbo"; "gpt-4"]
|}.

(** The first access on a fresh instance lists the models; the instance
    it leaves answers from its own copy. *)
Lemma available_models_fetched_once_witness :
  available_models (answering two_choices) fresh_adapter start
    = (Ok (["gpt-3.5-turbo"; "gpt-4"], listed_adapter),
       record_event (EvModelList None) start) /\
  available_models_cache listed_adapter = Some ["gpt-3.5-turbo"; "gpt-4"] /\
  forall s2,
    available_models (answering two_choices) listed_adapter s2
      = (Ok (["gpt-3.5-turbo"; "gpt-4"], listed_adapter), s2).
Proof.
  split; [reflexivity|].
  exact (available_models_fetched_once
           (answering two_choices) fresh_adapter start
           (ids := ["gpt-3.5-turbo"; "gpt-4"]) (self' := listed_adapter)
           (s' := record_event (EvModelList None) start) eq_refl).
Defined.

Lemma available_models_lists_ids_witness :
  exists ids self',
    available_models (answering two_choices) fresh_adapter start
      = (Ok (ids, self'), record_event (EvModelList None) start) /\
    map Some ids =
      filter (fun entry => match entry with Some _ => true | None => false end)
             [Some "gpt-3.5-turbo"; None; Some "gpt-4"] /\
    (forall id, In id ids <->
                In (Some id) [Some "gpt-3.5-turbo"; None; Some "gpt-4"]) /\
    (account_models = None -> ids = []).
Proof.
  exact (available_models_lists_ids
           (answering two_choices) fresh_adapter start
           (listing := account_models) eq_refl eq_refl).
Defined.

Lemma generate_requests_bounded_and_identical_witness :
  completions start
    <= completions (snd (_generate show flaky no_other_spec 6 (adapter None)
                                   "hello" 2 start))
    <= completions start + 6 /\
  exists evs,
    trace (snd (_generate show flaky no_other_spec 6 (adapter None)
                          "hello" 2 start)) = trace start ++ evs /\
    forall kw kw',
      In (EvChatCompletion kw) evs -> In (EvChatCompletion kw') evs -> kw = kw'.
Proof.
  exact (generate_requests_bounded_and_identical
           show flaky no_other_spec (fuel := 6) (adapter None) "hello" 2 start
           (le_n 6)).
Defined.

Lemma generate_passes_list_prompt_through_witness :
  exists tail,
    trace (snd (_generate show (answering two_choices) no_other_spec 6
                          (adapter None) "hello" 2 start))
    = trace start
      ++ [EvGeneratePrompt "hello";
          EvChatCompletion
            (completion_kwargs (adapter None) [("user", "hello")] 2)]
      ++ tail /\
    forall kw, In (EvChatCompletion kw) tail ->
               kw = completion_kwargs (adapter None) [("user", "hello")] 2.
Proof.
  exact (generate_passes_list_prompt_through
           show (answering two_choices) no_other_spec (fuel := 6)
           (adapter None) "hello" 2 start
           (messages := [("user", "hello")])
           (Nat.lt_0_succ 5) eq_refl eq_refl).
Defined.

(** A formatting function that raises, on a prompt that is a string. *)
Lemma generate_collaborator_error_propagates_witness :
  fst (_generate show (answering two_choices) no_other_spec 6
                 (adapter (Some refusing_formatter)) "text" 2 start)
    = Raise (Exc ValueError "cannot format") /\
  completions (snd (_generate show (answering two_choices) no_other_spec 6
                              (adapter (Some refusing_formatter)) "text" 2
                              start)) = 0.
Proof.
  destruct (generate_collaborator_error_propagates
              show (answering two_choices) no_other_spec 6
              (adapter (Some refusing_formatter)) "text" 2 start
              (e := Exc ValueError "cannot format")
              (or_intror (or_intror
                 (ex_intro _ rate_text
                    (ex_intro _ refusing_formatter
                       (conj eq_refl (conj eq_refl (conj eq_refl eq_refl)))))))) 
    as (Hres & Hcompl & _).
  split; [exact Hres|exact Hcompl].
Defined.

Lemma generate_returns_once_completed_witness :
  exists parsed texts warnings,
    _generate show (answering three_choices) no_other_spec 6 (adapter None)
              "hello" 3 start
    = (Ok (three_choices, parsed),
       extend (snd (request_completion show (answering three_choices)
                                       no_other_spec 6 (adapter None)
                                       "hello" 3 start))
              (map EvParseOutput texts ++ map EvWarn warnings)) /\
    List.length warnings <= 1 /\
    (warnings = [] \/ parsed = []).
Proof.
  exact (generate_returns_once_completed
           show (answering three_choices) no_other_spec 6 (adapter None)
           "hello" 3 start
           (raw := three_choices)
           (s1 := snd (request_completion show (answering three_choices)
                                          no_other_spec 6 (adapter None)
                                          "hello" 3 start))
           eq_refl).
Defined.

Lemma generate_raises_after_six_failures_witness :
  fst (_generate show down no_other_spec 6 (adapter None) "hello" 1 start)
    = Raise (RetryError rate_limited) /\
  completions
    (snd (_generate show down no_other_spec 6 (adapter None) "hello" 1 start))
    = 6.
Proof.
  rewrite (generate_raises_after_six_failures
             show (w := down) no_other_spec (fuel := 6) (self := adapter None)
             "hello" (n := 1) start
             (messages := [("user", "hello")])
             (s0 := extend start [EvGeneratePrompt "hello"])
             (e := rate_limited)).
  - split; reflexivity.
  - apply le_n.
  - reflexivity.
  - intros i Hi. exists rate_limited. split; reflexivity.
  - reflexivity.
  - reflexivity.
Defined.

Lemma generate_parses_every_choice_witness :
  fst (_generate show (answering two_choices) no_other_spec 6 (adapter None)
                 "hello" 2 start)
    = Ok (two_choices, [[52]; [53]]%N) /\
  parse_texts
    (trace (snd (_generate show (answering two_choices) no_other_spec 6
                           (adapter None) "hello" 2 start)))
    = [[52]; [53]]%N.
Proof.
  destruct (generate_parses_every_choice
              show (answering two_choices) no_other_spec 6
              (self := adapter None) "hello" 2 start
              (raw := two_choices)
              (s1 := snd (request_completion show (answering two_choices)
                                             no_other_spec 6 (adapter None)
                                             "hello" 2 start))
              (ps := [[52]; [53]]%N)
              eq_refl) as [Hrun _].
  - constructor; [exists [32; 52; 10]%N; split; reflexivity|].
    constructor; [exists [53; 32]%N; split; reflexivity|constructor].
  - rewrite Hrun. split; reflexivity.
Defined.

(** The padded choice is parsed, the blank one makes the parser raise,
    the plain one after it is never looked at. *)
Lemma generate_stops_at_first_failure_witness :
  _generate show (answering three_choices) no_other_spec 6 (adapter None)
            "hello" 3 start
  = (Ok (three_choices, []),
     {| trace :=
          [EvGeneratePrompt "hello";
           EvChatCompletion
             (completion_kwargs (adapter None) [("user", "hello")] 3);
           EvParseOutput [52]%N; EvParseOutput [];
           EvWarn "Error parsing OpenAI response: empty output"];
        api_key := None; completions := 1 |}).
Proof.
  assert (Hpre : Forall2 (parses_to (adapter None)) [padded] [[52]%N]).
  { constructor; [exists [32; 52; 10]%N; split; reflexivity|constructor]. }
  exact (@generate_stops_at_first_failure _ _ _ _ _
           show (answering three_choices) no_other_spec 6 (adapter None)
           "hello" 3 start three_choices
           (snd (request_completion show (answering three_choices)
                                    no_other_spec 6 (adapter None)
                                    "hello" 3 start))
           [padded] [[52]%N] blank [plain] (Exc ValueError "empty output")
           eq_refl eq_refl Hpre eq_refl).
Defined.

(** Three choices, the second blank: the parser sees the first two. *)
Lemma generate_passes_trimmed_contents_witness :
  exists seen texts,
    parse_texts
      (trace (snd (_generate show (answering three_choices) no_other_spec 6
                             (adapter None) "hello" 3 start)))
      = parse_texts (trace start) ++ texts /\
    Forall2 passed_as seen texts /\
    ((seen = choices three_choices /\
      exists ps, Forall2 (parses_to (adapter None)) (choices three_choices) ps)
     \/
     (exists pre ps c post e,
         choices three_choices = pre ++ c :: post /\
         Forall2 (parses_to (adapter None)) pre ps /\
         choice_raises (adapter None) c e /\
         seen = seen_until pre c)).
Proof.
  exact (proj1 (generate_passes_trimmed_contents_until_failure
                  show (answering three_choices) no_other_spec 6
                  (adapter None) "hello" 3 start)
               three_choices
               (snd (request_completion show (answering three_choices)
                                        no_other_spec 6 (adapter None)
                                        "hello" 3 start))
               eq_refl).
Defined.

(** C10 as stated fails: the third choice of the raw response has a
    content, but after the failure on the second one its stripped content
    is never handed to the parser. *)
Lemma generate_never_parses_choice_after_failure :
  fst (_generate show (answering three_choices) no_other_spec 6
                 (adapter None) "hello" 3 start)
    = Ok (three_choices, []) /\
  In plain (choices three_choices) /\
  content plain = Some [53]%N /\
  parse_texts
    (trace (snd (_generate show (answering three_choices) no_other_spec 6
                           (adapter None) "hello" 3 start)))
    = [[52]; []]%N /\
  ~ In (strip [53]%N)
       (parse_texts
          (trace (snd (_generate show (answering three_choices) no_other_spec
                                 6 (adapter None) "hello" 3 start)))).
Proof.
  split; [reflexivity|]. split; [right; right; now left|].
  split; [reflexivity|]. split; [reflexivity|].
  intros [H|[H|[]]]; discriminate H.
Qed.

End Runs.
